(** * ToothFairy3 preprocessing script: a shallow embedding and its properties

    The development follows [ToothFairy_preprocess.py] function by function.
    Python integers are [Z], strings are [string], a [dict] is an
    insertion-ordered association list, a directory is a finite map from
    file names to files and the file system is a finite map from directory
    paths to directories.  Code that touches the file system lives in a
    state-and-exception monad over the file system. *)

From Stdlib Require Import ZArith String Ascii List Lia.
From stdpp Require Import gmap strings list sorting fin_maps.

#[local] Set Warnings "-clear-no-such-hyp".

Local Open Scope string_scope.
Local Open Scope Z_scope.

(** ** Python strings *)

Module Str.

(** [s.startswith(p)] *)
Definition startswith (s p : string) : bool := String.prefix p s.

(** [s.endswith(suf)]: some suffix of [s] is [suf]. *)
Fixpoint endswith (s suf : string) : bool :=
  if String.eqb s suf then true
  else match s with
       | EmptyString => false
       | String _ s' => endswith s' suf
       end.

(** [s.replace(old, "")] for a non-empty [old]: the occurrences of [old]
    are removed from left to right, without overlap.  [skip] counts the
    characters of an occurrence that are still to be dropped. *)
Fixpoint remove_go (old : string) (skip : nat) (s : string) : string :=
  match s with
  | EmptyString => EmptyString
  | String c s' =>
      match skip with
      | S k => remove_go old k s'
      | O => if String.prefix old s
             then remove_go old (String.length old - 1) s'
             else String c (remove_go old O s')
      end
  end.

Definition remove (s old : string) : string := remove_go old O s.

(** [s.split(sep)] for a one-character separator. *)
Fixpoint split (sep : ascii) (s : string) : list string :=
  match s with
  | EmptyString => [EmptyString]
  | String c s' =>
      if Ascii.eqb c sep then EmptyString :: split sep s'
      else match split sep s' with
           | [] => [String c EmptyString]
           | tok :: toks => String c tok :: toks
           end
  end.

(** [sep.join(toks)] *)
Fixpoint join (sep : string) (toks : list string) : string :=
  match toks with
  | [] => EmptyString
  | [tok] => tok
  | tok :: toks' => tok +:+ sep +:+ join sep toks'
  end.

End Str.

(** ** Python dictionaries, [sorted] and [enumerate] *)

Module Dict.
Section dict.
Context {K V : Type} `{EqDecision K}.

(** [d.get(k)] *)
Fixpoint get (k : K) (d : list (K * V)) : option V :=
  match d with
  | [] => None
  | (k', v) :: d' => if decide (k = k') then Some v else get k d'
  end.

(** [d[k] = v]: an existing key keeps its position, a new one goes last. *)
Fixpoint set (k : K) (v : V) (d : list (K * V)) : list (K * V) :=
  match d with
  | [] => [(k, v)]
  | (k', v') :: d' =>
      if decide (k = k') then (k, v) :: d' else (k', v') :: set k v d'
  end.

(** [{k: v for (k, v) in items}] *)
Definition of_items (items : list (K * V)) : list (K * V) :=
  fold_left (fun d kv => set kv.1 kv.2 d) items [].

(** The value of the last pair of [items] with key [k]. *)
Definition last_value (k : K) (items : list (K * V)) : option V :=
  last (omap (fun kv => if decide (k = kv.1) then Some kv.2 else None) items).

End dict.
End Dict.

(** [sorted(l, key=...)] as a stable insertion sort: [le x y] tells that [x]
    may stay in front of [y]; an element is put in front of the elements
    that followed it in [l] and do not have to come first. *)
Section sorted.
Context {A : Type} (le : A -> A -> bool).

Fixpoint sorted_insert (x : A) (l : list A) : list A :=
  match l with
  | [] => [x]
  | y :: l' => if le x y then x :: y :: l' else y :: sorted_insert x l'
  end.

Definition sorted (l : list A) : list A := foldr sorted_insert [] l.
End sorted.

(** [enumerate(l)] *)
Definition enumerate {A : Type} (l : list A) : list (Z * A) :=
  imap (fun i x => (Z.of_nat i, x)) l.

(** ** JSON values, as [json.load] returns them *)

#[warnings="-register-all"]
Inductive json : Type :=
| JInt (z : Z)
| JStr (s : string)
| JObj (fields : list (string * json)).

(** [int(v)] on a JSON value: an integer is itself, a string is read as an
    optionally signed run of decimal digits, anything else raises.  (Strings
    with blanks or underscores, which [int] also reads, and JSON floats are
    outside the model.) *)
Fixpoint digits_value (acc : Z) (s : string) : option Z :=
  match s with
  | EmptyString => Some acc
  | String c s' =>
      match Ascii.is_nat c with
      | Some d => digits_value (10 * acc + Z.of_nat d) s'
      | None => None
      end
  end.

Definition unsigned_value (s : string) : option Z :=
  match s with
  | EmptyString => None
  | _ => digits_value 0 s
  end.

Definition py_int (v : json) : option Z :=
  match v with
  | JInt z => Some z
  | JStr (String "-" s) => Z.opp <$> unsigned_value s
  | JStr (String "+" s) => unsigned_value s
  | JStr s => unsigned_value s
  | JObj _ => None
  end.

(** ** Label Remapper: the computation of [remap_label_ids_from_json]

    A label table is [data["labels"].items()] with [int] already applied to
    the values: the pairs (name, original ID) in the order of the file. *)

Abbreviation label_table := (list (string * Z)).

(** [sorted(original_labels.items(), key=lambda x: int(x[1]))] *)
Definition label_items (original_labels : label_table) : label_table :=
  sorted (fun x y => Z.leb x.2 y.2) original_labels.

(** The pairs (original ID, new ID) that the comprehension of line 54 goes
    through: the entry of rank [i] of the sorted table gives its original ID
    the new ID [i]. *)
Definition id_pairs (original_labels : label_table) : list (Z * Z) :=
  map (fun '(new_id, (_, old_id)) => (old_id, new_id))
      (enumerate (label_items original_labels)).

(** [{int(old_id): new_id for new_id, (_, old_id) in enumerate(label_items)}] *)
Definition new_id_map (original_labels : label_table) : list (Z * Z) :=
  Dict.of_items (id_pairs original_labels).

(** [{name: new_id for new_id, (name, _) in enumerate(label_items)}] *)
Definition remapped_labels (original_labels : label_table) : list (string * Z) :=
  Dict.of_items
    (map (fun '(new_id, (name, _)) => (name, new_id))
         (enumerate (label_items original_labels))).

(** The [output_dict] literal. *)
Definition output_dict (original_labels : label_table) (num_training : Z)
  : list (string * json) :=
  [ ("labels", JObj (map (fun '(name, new_id) => (name, JInt new_id))
                         (remapped_labels original_labels)));
    ("numTraining", JInt (num_training + 1));
    ("numTest", JInt 51);
    ("file_ending", JStr ".nii.gz");
    ("channel_names", JObj [("0", JStr "CBCT")]) ].

(** The label table of the collision scenario. *)
Definition scenario_table : label_table :=
  [("Tooth", 5); ("Bone", 2); ("Gum", 2)].

(** Two dictionaries with the same entries, in whatever order. *)
Definition same_dict {K V : Type} `{EqDecision K} (d1 d2 : list (K * V)) : Prop :=
  forall k, Dict.get k d1 = Dict.get k d2.

(** [m] renumbers the original IDs [ids] densely and in order: its keys are
    [ids], it is a bijection onto 0 .. N-1 for the number N of distinct
    original IDs, and it is strictly increasing. *)
Definition dense_renumbering (ids : list Z) (m : list (Z * Z)) : Prop :=
  let N := Z.of_nat (length (remove_dups ids)) in
  (forall old, old ∈ ids <-> is_Some (Dict.get old m)) /\
  (forall old new, Dict.get old m = Some new -> 0 <= new < N) /\
  (forall new, 0 <= new < N -> exists old, Dict.get old m = Some new) /\
  (forall old1 old2 new,
      Dict.get old1 m = Some new -> Dict.get old2 m = Some new -> old1 = old2) /\
  (forall old1 old2 new1 new2,
      Dict.get old1 m = Some new1 -> Dict.get old2 m = Some new2 ->
      old1 < old2 -> new1 < new2).

(** ** Files and the file system *)

(** The data type that a NIfTI header names for the stored voxels.  (The
    complex, RGB and extended-precision types of the format are outside the
    model.) *)
Inductive dtype : Type :=
| uint8 | int8 | int16 | uint16 | int32 | uint32 | int64 | uint64
| float32 | float64.

(** Whether a file of that type stores the value [v] of a [uint16] array as
    it is: an integer type has to have [v] in its range, a floating-point
    type takes every value of such an array. *)
Definition dtype_holds (d : dtype) (v : Z) : bool :=
  match d with
  | uint8 => (0 <=? v) && (v <=? 255)
  | int8 => (-128 <=? v) && (v <=? 127)
  | int16 => (-32768 <=? v) && (v <=? 32767)
  | uint16 => (0 <=? v) && (v <=? 65535)
  | int32 => (-2147483648 <=? v) && (v <=? 2147483647)
  | uint32 => (0 <=? v) && (v <=? 4294967295)
  | int64 => (-9223372036854775808 <=? v) && (v <=? 9223372036854775807)
  | uint64 => (0 <=? v) && (v <=? 18446744073709551615)
  | float32 | float64 => true
  end.

(** The header of a volume as nibabel holds it, [img.header]: the data type
    of the stored voxels, and the other fields (dimensions, spacing,
    orientation, ...) kept as their encoded bytes.  The scale factors with
    which a file stores its array are not among them: nibabel blanks them
    in the header of a loaded image and sets them anew when it saves. *)
Record Nifti1Header : Type := {
  data_dtype : dtype;
  fields : string
}.

(** A NIfTI volume.  [affine] and [header] are the framing metadata, the
    affine kept as its encoded bytes; [dataobj] holds the voxels in storage
    order, as the array [img.get_fdata().astype(np.uint16)] of line 76 has
    them: the volumes of the data set store labels, integers from 0 to
    65535, on which that conversion is the identity. *)
Record Nifti1Image : Type := {
  affine : string;
  header : Nifti1Header;
  dataobj : list Z
}.

(** A file.  [NiftiFile img] is a NIfTI file that stores the voxels of
    [img] as they are, so that [nib.load] reads it as [img].
    [ScaledNiftiFile img] is the NIfTI file that [nib.save] writes for the
    image object [img] when a voxel of its array does not fit the data
    type of its header: nibabel then stores the array rescaled, with a
    slope and an intercept that it computes in floating point and writes in
    the stored header.  What such a file reads back as is that arithmetic
    of nibabel, outside the model, and the model does not load it. *)
Inductive File : Type :=
| NiftiFile (img : Nifti1Image)
| ScaledNiftiFile (img : Nifti1Image)
| JsonFile (j : json)
| OtherFile (content : string).

(** A path is the list of its components; a directory maps the names of
    its files to them; the file system maps directory paths to directories.
    A directory lists files only: the script never lists a directory that
    has subdirectories. *)
Abbreviation path := (list string).
Abbreviation directory := (gmap string File).
Abbreviation FS := (gmap (list string) (gmap string File)).

Definition os_path_join (d : path) (name : string) : path :=
  (d ++ [name])%list.
Definition os_path_dirname (p : path) : path := removelast p.
Definition os_path_basename (p : path) : option string := last p.

(** The file stored at a path, if any. *)
Definition file_at (fs : FS) (p : path) : option File :=
  name ← os_path_basename p;
  dir ← fs !! os_path_dirname p;
  dir !! name.

(** *** The monad: a computation runs on a file system and either raises
    ([None]) or returns a value and the new file system. *)

Definition M (A : Type) : Type := FS -> option (A * FS).

Definition ret {A} (a : A) : M A := fun fs => Some (a, fs).
Definition bind {A B} (m : M A) (k : A -> M B) : M B :=
  fun fs => match m fs with
            | Some (a, fs') => k a fs'
            | None => None
            end.
Definition raise {A} : M A := fun _ => None.
Definition lift {A} (o : option A) : M A :=
  fun fs => match o with Some a => Some (a, fs) | None => None end.

Declare Scope M_scope.
Delimit Scope M_scope with M.
Notation "x <- m ;; k" := (bind m (fun x => k))
  (at level 100, m at next level, right associativity) : M_scope.
Notation "m ;; k" := (bind m (fun _ => k))
  (at level 100, right associativity) : M_scope.
Local Open Scope M_scope.

(** [for x in l: body(x)] *)
Fixpoint for_each {A} (l : list A) (body : A -> M unit) : M unit :=
  match l with
  | [] => ret tt
  | x :: l' => body x ;; for_each l' body
  end.

(** [os.makedirs(d, exist_ok=True)] *)
Definition os_makedirs (d : path) : M unit :=
  fun fs => Some (tt, match fs !! d with
                      | Some _ => fs
                      | None => <[d := ∅]> fs
                      end).

(** Reading, writing and removing the file at a path; reading or removing a
    file that does not exist raises, as does writing into a directory that
    does not exist. *)
Definition read_file (p : path) : M File :=
  fun fs => match file_at fs p with
            | Some f => Some (f, fs)
            | None => None
            end.

Definition write_file (p : path) (f : File) : M unit :=
  fun fs => match os_path_basename p, fs !! os_path_dirname p with
            | Some name, Some dir =>
                Some (tt, <[os_path_dirname p := <[name := f]> dir]> fs)
            | _, _ => None
            end.

Definition remove_file (p : path) : M unit :=
  fun fs => match os_path_basename p, fs !! os_path_dirname p with
            | Some name, Some dir =>
                Some (tt, <[os_path_dirname p := delete name dir]> fs)
            | _, _ => None
            end.

(** [shutil.move(src, dst)] for two file paths: the file leaves [src] and
    replaces whatever was at [dst]. *)
Definition shutil_move (src dst : path) : M unit :=
  f <- read_file src ;;
  remove_file src ;;
  write_file dst f.

(** [shutil.copytree(src, dst, dirs_exist_ok=True)] on flat directories:
    every file of [src] is copied over [dst], whatever its name; copying a
    file onto itself is an error, reported once the walk is over. *)
Definition shutil_copytree (src dst : path) : M unit :=
  fun fs =>
    match fs !! src with
    | None => None
    | Some src_dir =>
        if decide (src = dst)
        then (if decide (src_dir = ∅) then Some (tt, fs) else None)
        else Some (tt, <[dst := src_dir ∪ default ∅ (fs !! dst)]> fs)
    end.

(** A file name under which nibabel reads and writes a NIfTI image of one
    file.  (Names in other letter case or with another compression suffix,
    which nibabel takes as well, and the names of other image formats, to
    which [nib.save] converts the image, are outside the model.) *)
Definition nifti_name (name : string) : bool :=
  Str.endswith name ".nii.gz" || Str.endswith name ".nii".

(** Whether every voxel of the array of [img] fits the data type of its
    header. *)
Definition fits_dtype (img : Nifti1Image) : bool :=
  forallb (dtype_holds (data_dtype (header img))) (dataobj img).

(** The file that [nib.save] writes for the image object [img]: the array
    as it is when it fits the data type of the header, rescaled
    otherwise. *)
Definition nib_encode (img : Nifti1Image) : File :=
  if fits_dtype img then NiftiFile img else ScaledNiftiFile img.

(** [nib.load]: the file has to be a NIfTI file under a NIfTI name.  (The
    model does not load a rescaled file: see [ScaledNiftiFile].) *)
Definition nib_load (p : path) : M Nifti1Image :=
  f <- read_file p ;;
  match os_path_basename p, f with
  | Some name, NiftiFile img => if nifti_name name then ret img else raise
  | _, _ => raise
  end.

(** [nib.save]: under a name that is not a NIfTI name nibabel raises
    [ImageFileError] (or converts to another format, where the model stops
    as well); the image object was built with [header=img.header] (line
    82), so the file keeps the data type of that header. *)
Definition nib_save (img : Nifti1Image) (p : path) : M unit :=
  match os_path_basename p with
  | Some name => if nifti_name name then write_file p (nib_encode img) else raise
  | None => raise
  end.

(** [json.load] and [json.dump] *)
Definition json_load (p : path) : M json :=
  f <- read_file p ;;
  match f with
  | JsonFile j => ret j
  | _ => raise
  end.

Definition json_dump (j : json) (p : path) : M unit :=
  write_file p (JsonFile j).

(** [data[key]] on a loaded JSON value *)
Definition json_getitem (data : json) (key : string) : option json :=
  match data with
  | JObj fields => Dict.get key fields
  | _ => None
  end.

(** [data[key] = v] *)
Definition json_setitem (data : json) (key : string) (v : json) : option json :=
  match data with
  | JObj fields => Some (JObj (Dict.set key v fields))
  | _ => None
  end.

(** [labels.items()] with [int] applied to every value, as the sort key and
    the dictionary comprehension of lines 53-54 do. *)
Definition json_label_items (labels : json) : option label_table :=
  match labels with
  | JObj fields => mapM (fun '(name, v) => z ← py_int v; Some (name, z)) fields
  | _ => None
  end.

(** ** [remap_label_ids_from_json] *)

Definition remap_label_ids_from_json
    (json_path save_json_path : path) (num_training : Z) : M (list (Z * Z)) :=
  data <- json_load json_path ;;
  original_labels <- lift (json_getitem data "labels" ≫= json_label_items) ;;
  json_dump (JObj (output_dict original_labels num_training)) save_json_path ;;
  ret (new_id_map original_labels).

(** ** Volume Relabeler *)

(** Storing a Python integer into a [uint16] array: a value out of range
    raises [OverflowError]. *)
Definition np_uint16 (v : Z) : option Z :=
  if decide (0 <= v < 65536) then Some v else None.

(** [np.zeros_like(data)] *)
Definition zeros_like (data : list Z) : list Z := map (fun _ => 0) data.

(** [remapped_data[data == old_id] = new_id] *)
Definition assign_where (data : list Z) (old_id v : Z) (remapped_data : list Z)
  : list Z :=
  zip_with (fun d r => if decide (d = old_id) then v else r) data remapped_data.

(** The loop of lines 79-80 over [id_mapping.items()]. *)
Fixpoint remap_loop (data remapped_data : list Z) (items : list (Z * Z))
  : option (list Z) :=
  match items with
  | [] => Some remapped_data
  | (old_id, new_id) :: rest =>
      match np_uint16 new_id with
      | Some v => remap_loop data (assign_where data old_id v remapped_data) rest
      | None => None
      end
  end.

Definition remap_labels_in_nii
    (input_path output_path : path) (id_mapping : list (Z * Z)) : M unit :=
  img <- nib_load input_path ;;
  let data := dataobj img in
  remapped_data <- lift (remap_loop data (zeros_like data) id_mapping) ;;
  let new_img := {| affine := affine img; header := header img;
                    dataobj := remapped_data |} in
  nib_save new_img output_path.

(** ** Pair Splitter: what does not read a directory *)

Definition strip_image_id (filename : string) : string :=
  Str.join "_" (take 2 (Str.split "_" (Str.remove filename ".nii.gz"))).

(** One turn of the loop of lines 14-19 on the [defaultdict] [grouped]. *)
Definition group_step (prefixes : list string)
    (grouped : gmap string (list string)) (fname : string)
  : gmap string (list string) :=
  if Str.endswith fname ".nii.gz"
  then match List.find (Str.startswith fname) prefixes with
       | Some prefix => <[prefix := (grouped !!! prefix ++ [fname])%list]> grouped
       | None => grouped
       end
  else grouped.

(** The loop of lines 13-19 over the listing [names]. *)
Definition groups_of (prefixes names : list string) : gmap string (list string) :=
  foldl (group_step prefixes) ∅ names.

(** The set comprehension of line 23 over the listing [names]. *)
Definition label_set_of (names : list string) : gset string :=
  list_to_set
    (map (fun fname => Str.remove fname ".nii.gz")
         (List.filter (fun fname => Str.endswith fname ".nii.gz") names)).

(** [sorted(group, reverse=True)] on file names *)
Definition sorted_reverse (group : list string) : list string :=
  sorted (fun x y => String.leb y x) group.

(** The loop of lines 34-40: [fnames] is what is left of the sorted
    group, [matched] the pairs found so far. *)
Fixpoint match_loop (label_set : gset string) (max_per_prefix : Z)
    (fnames : list string) (matched : list (string * string))
  : list (string * string) :=
  match fnames with
  | [] => matched
  | fname :: rest =>
      let base_id := strip_image_id fname in
      let label_fname := base_id +:+ ".nii.gz" in
      let matched' :=
        if decide (base_id ∈ label_set)
        then (matched ++ [(fname, label_fname)])%list
        else matched in
      if decide (Z.of_nat (length matched') >= max_per_prefix)
      then matched'
      else match_loop label_set max_per_prefix rest matched'
  end.

(** The pairs selected for one prefix (lines 33-40). *)
Definition matched_pairs (image_groups : gmap string (list string))
    (label_set : gset string) (max_per_prefix : Z) (prefix : string)
  : list (string * string) :=
  match_loop label_set max_per_prefix
             (sorted_reverse (image_groups !!! prefix)) [].

(** The moves of lines 44-46. *)
Definition move_pairs
    (images_dir labels_dir output_images_dir output_labels_dir : path)
    (matched : list (string * string)) : M unit :=
  for_each matched (fun '(image_fname, label_fname) =>
    shutil_move (os_path_join images_dir image_fname)
                (os_path_join output_images_dir image_fname) ;;
    shutil_move (os_path_join labels_dir label_fname)
                (os_path_join output_labels_dir label_fname)).

(** [len([f for f in names if f.endswith(".nii.gz")])] *)
Definition count_nii (names : list string) : Z :=
  Z.of_nat (length (List.filter (fun f => Str.endswith f ".nii.gz") names)).

(** The prefix list of [main]. *)
Definition prefixes : list string :=
  ["ToothFairy3F"; "ToothFairy3P"; "ToothFairy3S"].

(** ** Code that lists directories

    [os.listdir] returns the names of a directory in an order that the
    script does not control: [listdir_order] is that order, any
    rearrangement of the names. *)

Section listing.
Variable listdir_order : list string -> list string.

(** [os.listdir(d)] *)
Definition os_listdir (d : path) : M (list string) :=
  fun fs => match fs !! d with
            | Some dir => Some (listdir_order (map fst (map_to_list dir)), fs)
            | None => None
            end.

Definition remap_all_labels
    (label_dir output_dir : path) (id_mapping : list (Z * Z)) : M unit :=
  os_makedirs output_dir ;;
  names <- os_listdir label_dir ;;
  for_each names (fun fname =>
    if Str.endswith fname ".nii.gz"
    then
      let input_path := os_path_join label_dir fname in
      let output_path := os_path_join output_dir fname in
      remap_labels_in_nii input_path output_path id_mapping
    else ret tt).

Definition collect_image_files_by_prefix
    (images_dir : path) (prefixes : list string)
  : M (gmap string (list string)) :=
  names <- os_listdir images_dir ;;
  ret (groups_of prefixes names).

Definition collect_label_set (labels_dir : path) : M (gset string) :=
  names <- os_listdir labels_dir ;;
  ret (label_set_of names).

Definition move_matched_pairs
    (images_dir labels_dir output_images_dir output_labels_dir : path)
    (prefixes : list string) (max_per_prefix : Z) : M unit :=
  os_makedirs output_images_dir ;;
  os_makedirs output_labels_dir ;;
  image_groups <- collect_image_files_by_prefix images_dir prefixes ;;
  label_set <- collect_label_set labels_dir ;;
  for_each prefixes (fun prefix =>
    let matched := matched_pairs image_groups label_set max_per_prefix prefix in
    move_pairs images_dir labels_dir output_images_dir output_labels_dir
               matched).

(** Lines 119-128 of [main], the Metadata Finalizer. *)
Definition update_num_training
    (output_labelsTr_dir output_labelsVal_dir output_json_path : path)
  : M unit :=
  names <- os_listdir output_labelsTr_dir ;;
  let total_labels := List.filter (fun f => Str.endswith f ".nii.gz") names in
  names_val <- os_listdir output_labelsVal_dir ;;
  let num_val := count_nii names_val in
  let num_train := Z.of_nat (length total_labels) - num_val in
  dataset <- json_load output_json_path ;;
  dataset' <- lift (json_setitem dataset "numTraining" (JInt num_train)) ;;
  json_dump dataset' output_json_path.

(** [main]; the [print] calls are left out: no property here reads the
    output. *)
Definition main (input_root output_root : path) : M unit :=
  let input_images_dir := os_path_join input_root "imagesTr" in
  let input_labels_dir := os_path_join input_root "labelsTr" in
  let input_json_path := os_path_join input_root "dataset.json" in
  let output_imagesTr_dir := os_path_join output_root "imagesTr" in
  let output_labelsTr_dir := os_path_join output_root "labelsTr" in
  let output_imagesVal_dir := os_path_join output_root "imagesVal" in
  let output_labelsVal_dir := os_path_join output_root "labelsVal" in
  let output_json_path := os_path_join output_root "dataset.json" in
  os_makedirs (os_path_dirname output_json_path) ;;
  id_mapping <- remap_label_ids_from_json input_json_path output_json_path 0 ;;
  os_makedirs output_labelsTr_dir ;;
  remap_all_labels input_labels_dir output_labelsTr_dir id_mapping ;;
  shutil_copytree input_images_dir output_imagesTr_dir ;;
  move_matched_pairs output_imagesTr_dir output_labelsTr_dir
                     output_imagesVal_dir output_labelsVal_dir prefixes 17 ;;
  update_num_training output_labelsTr_dir output_labelsVal_dir output_json_path.

(** Lines 95-117 of [main]: the pipeline up to and including the split,
    without the Finalizer of lines 119-128. *)
Definition main_before_finalizer (input_root output_root : path) : M unit :=
  let input_images_dir := os_path_join input_root "imagesTr" in
  let input_labels_dir := os_path_join input_root "labelsTr" in
  let input_json_path := os_path_join input_root "dataset.json" in
  let output_imagesTr_dir := os_path_join output_root "imagesTr" in
  let output_labelsTr_dir := os_path_join output_root "labelsTr" in
  let output_imagesVal_dir := os_path_join output_root "imagesVal" in
  let output_labelsVal_dir := os_path_join output_root "labelsVal" in
  let output_json_path := os_path_join output_root "dataset.json" in
  os_makedirs (os_path_dirname output_json_path) ;;
  id_mapping <- remap_label_ids_from_json input_json_path output_json_path 0 ;;
  os_makedirs output_labelsTr_dir ;;
  remap_all_labels input_labels_dir output_labelsTr_dir id_mapping ;;
  shutil_copytree input_images_dir output_imagesTr_dir ;;
  move_matched_pairs output_imagesTr_dir output_labelsTr_dir
                     output_imagesVal_dir output_labelsVal_dir prefixes 17.

End listing.

(** ** Notions used to state the properties *)

(** [fname] is put in the group of [prefix]: it has the suffix and [prefix]
    is the first prefix of the list that starts it. *)
Definition in_group (prefixes : list string) (prefix fname : string) : bool :=
  Str.endswith fname ".nii.gz"
  && bool_decide (List.find (Str.startswith fname) prefixes = Some prefix).

(** The image has a label: its case identifier is in the label set. *)
Definition has_label (label_set : gset string) (fname : string) : bool :=
  bool_decide (strip_image_id fname ∈ label_set).

(** The pairs of all the images of [fnames] that have a label, in order. *)
Definition candidates (label_set : gset string) (fnames : list string)
  : list (string * string) :=
  omap (fun fname =>
          if has_label label_set fname
          then Some (fname, strip_image_id fname +:+ ".nii.gz")
          else None) fnames.

(** The pairs selected for every prefix, from the listings that
    [move_matched_pairs] takes before it moves anything (lines 29-40). *)
Definition selected_pairs (listdir_order : list string -> list string)
    (images_dir labels_dir : path) (prefixes : list string) (max_per_prefix : Z)
  : M (list (list (string * string))) :=
  image_groups <- collect_image_files_by_prefix listdir_order images_dir prefixes ;;
  label_set <- collect_label_set listdir_order labels_dir ;;
  ret (map (matched_pairs image_groups label_set max_per_prefix) prefixes).

(** The names of the files of a directory, none when there is no such
    directory. *)
Definition dir_names (fs : FS) (d : path) : option (gset string) :=
  dom <$> fs !! d.

(** The path of a file whose name has the suffix [.nii.gz]. *)
Definition nii_path (q : path) : Prop :=
  exists d name, q = os_path_join d name /\ Str.endswith name ".nii.gz" = true.

(** [fs'] has the files of [fs] at every path outside [P]. *)
Definition unchanged_except (P : path -> Prop) (fs fs' : FS) : Prop :=
  forall q, ~ P q -> file_at fs' q = file_at fs q.

(** Whether a run succeeded, and the file system it left. *)
Definition succeeds {A} (r : option (A * FS)) : bool :=
  match r with Some _ => true | None => false end.

Definition final_fs {A} (r : option (A * FS)) : FS :=
  match r with Some (_, fs') => fs' | None => ∅ end.

(** The moves of [move_pairs], one after the other: (source, destination). *)
Definition moves_of
    (images_dir labels_dir output_images_dir output_labels_dir : path)
    (matched : list (string * string)) : list (path * path) :=
  flat_map (fun '(image_fname, label_fname) =>
              [ (os_path_join images_dir image_fname,
                 os_path_join output_images_dir image_fname);
                (os_path_join labels_dir label_fname,
                 os_path_join output_labels_dir label_fname) ]) matched.

(** ** Further notions used to state properties *)

(** [c in s] for a character [c]. *)
Fixpoint contains_char (c : ascii) (s : string) : bool :=
  match s with
  | EmptyString => false
  | String c' s' => Ascii.eqb c' c || contains_char c s'
  end.

(** A token of a file name: it has neither an underscore nor a dot. *)
Definition is_token (s : string) : bool :=
  negb (contains_char "_" s) && negb (contains_char "." s).

(** The images of [group] that a run has taken out of the image
    directory: the final file system [fs'] has no file of that name
    there. *)
Definition moved_out (fs' : FS) (images_dir : path) (group : list string)
  : list string :=
  List.filter
    (fun fname => bool_decide (file_at fs' (os_path_join images_dir fname) = None))
    group.

(** All the moves of a run of the splitter, in order, from the groups and
    the label set it has collected. *)
Definition all_moves
    (images_dir labels_dir output_images_dir output_labels_dir : path)
    (image_groups : gmap string (list string)) (label_set : gset string)
    (prefixes : list string) (max_per_prefix : Z) : list (path * path) :=
  concat (map (moves_of images_dir labels_dir output_images_dir output_labels_dir)
              (map (matched_pairs image_groups label_set max_per_prefix)
                   prefixes)).

(** All the pairs that a run of the splitter selects, prefix after prefix. *)
Definition all_selected (image_groups : gmap string (list string))
    (label_set : gset string) (prefixes : list string) (max_per_prefix : Z)
  : list (string * string) :=
  concat (map (matched_pairs image_groups label_set max_per_prefix) prefixes).


(** ** Sample data *)

Definition sample_header : Nifti1Header :=
  {| data_dtype := uint8; fields := "header" |}.

Definition sample_volume (voxels : list Z) : File :=
  NiftiFile {| affine := "affine"; header := sample_header; dataobj := voxels |}.

(** A training tree for the splitter: four images of the first prefix,
    three of them with a label, and one labelled image of the second. *)
Definition split_fs : FS :=
  <[ ["tr"; "images"] :=
       <[ "ToothFairy3F_001_0000.nii.gz" := OtherFile "F1" ]>
       (<[ "ToothFairy3F_002_0000.nii.gz" := OtherFile "F2" ]>
        (<[ "ToothFairy3F_003_0000.nii.gz" := OtherFile "F3" ]>
         (<[ "ToothFairy3F_004_0000.nii.gz" := OtherFile "F4" ]>
          {[ "ToothFairy3P_001_0000.nii.gz" := OtherFile "P1" ]}))) ]>
  (<[ ["tr"; "labels"] :=
        <[ "ToothFairy3F_001.nii.gz" := OtherFile "label F1" ]>
        (<[ "ToothFairy3F_002.nii.gz" := OtherFile "label F2" ]>
         (<[ "ToothFairy3F_003.nii.gz" := OtherFile "label F3" ]>
          {[ "ToothFairy3P_001.nii.gz" := OtherFile "label P1" ]})) ]> ∅).

Definition sample_descriptor : File :=
  JsonFile (JObj [("labels", JObj [("background", JInt 0); ("Tooth", JInt 5);
                                   ("Bone", JInt 2)])]).

(** An input root with two cases and a stray text file, beside an output
    root that already holds a text file of the same name. *)
Definition sample_fs : FS :=
  <[ ["in"] := {[ "dataset.json" := sample_descriptor ]} ]>
  (<[ ["in"; "imagesTr"] :=
        <[ "ToothFairy3F_001_0000.nii.gz" := OtherFile "image 1" ]>
        (<[ "ToothFairy3P_002_0000.nii.gz" := OtherFile "image 2" ]>
         {[ "notes.txt" := OtherFile "new notes" ]}) ]>
  (<[ ["in"; "labelsTr"] :=
        <[ "ToothFairy3F_001.nii.gz" := sample_volume [0; 5; 2; 7] ]>
        {[ "ToothFairy3S_003.nii.gz" := sample_volume [2; 2] ]} ]>
  (<[ ["out"; "imagesTr"] := {[ "notes.txt" := OtherFile "old notes" ]} ]> ∅))).

(** * Properties *)
(** ** Sorting *)

Section sorted_facts.
Context {A : Type} (le : A -> A -> bool).

Lemma sorted_insert_perm x l : sorted_insert le x l ≡ₚ x :: l.
Proof.
  induction l as [|y l IH]; simpl; [done|].
  destruct (le x y); [done|].
  rewrite IH. apply Permutation_swap.
Qed.

Lemma sorted_perm l : sorted le l ≡ₚ l.
Proof.
  induction l as [|x l IH]; simpl; [done|].
  by rewrite sorted_insert_perm, IH.
Qed.

Lemma sorted_length l : length (sorted le l) = length l.
Proof. by rewrite sorted_perm. Qed.

Hypothesis le_total : forall x y, le x y = false -> le y x = true.

Lemma sorted_insert_Sorted x l :
  Sorted (fun a b => le a b = true) l ->
  Sorted (fun a b => le a b = true) (sorted_insert le x l).
Proof.
  induction 1 as [|y l Hl IH Hhd]; simpl.
  - by repeat constructor.
  - destruct (le x y) eqn:Hxy.
    + constructor; [by constructor|by constructor].
    + constructor; [done|].
      destruct Hhd as [|z l Hyz]; simpl.
      * constructor. by apply le_total.
      * destruct (le x z); constructor; [by apply le_total|done].
Qed.

Lemma sorted_Sorted l : Sorted (fun a b => le a b = true) (sorted le l).
Proof.
  induction l as [|x l IH]; simpl; [constructor|].
  by apply sorted_insert_Sorted.
Qed.

End sorted_facts.

(** ** Dictionaries *)

Section dict_facts.
Context {K V : Type} `{EqDecision K}.
Implicit Types (d items : list (K * V)).

Lemma dict_get_set k k' v d :
  Dict.get k (Dict.set k' v d) =
  if decide (k = k') then Some v else Dict.get k d.
Proof.
  induction d as [|[k0 v0] d IH]; simpl.
  - by destruct (decide (k = k')).
  - destruct (decide (k' = k0)) as [->|Hne]; simpl.
    + by destruct (decide (k = k0)).
    + destruct (decide (k = k0)) as [->|]; [|done].
      by rewrite decide_False by done.
Qed.

Lemma dict_set_keys k v d :
  is_Some (Dict.get k d) -> (Dict.set k v d).*1 = d.*1.
Proof.
  induction d as [|[k0 v0] d IH]; simpl; [by intros [? ?]|].
  destruct (decide (k = k0)) as [->|]; [done|].
  intros ?. rewrite !fmap_cons. f_equal. by apply IH.
Qed.

Lemma dict_get_Some_elem k v d : Dict.get k d = Some v -> (k, v) ∈ d.
Proof.
  induction d as [|[k0 v0] d IH]; simpl; [done|].
  destruct (decide (k = k0)) as [->|].
  - intros [= ->]. left.
  - intros ?. right. auto.
Qed.

Lemma dict_get_None k d : Dict.get k d = None <-> k ∉ d.*1.
Proof.
  induction d as [|[k0 v0] d IH]; simpl.
  - split; [intros _; apply not_elem_of_nil|done].
  - rewrite not_elem_of_cons. destruct (decide (k = k0)); [|tauto].
    split; [done|]. by intros [? _].
Qed.

Lemma dict_get_elem_NoDup k v d :
  NoDup d.*1 -> (k, v) ∈ d -> Dict.get k d = Some v.
Proof.
  induction d as [|[k0 v0] d IH]; simpl; [by intros _ ?%elem_of_nil|].
  intros [Hk Hd]%NoDup_cons [[= -> ->]|Hin]%elem_of_cons.
  - by rewrite decide_True.
  - rewrite decide_False; [auto|].
    intros ->. apply Hk. by apply (list_elem_of_fmap_2 fst) in Hin.
Qed.

Lemma last_value_snoc k items kv :
  Dict.last_value k (items ++ [kv]) =
  if decide (k = kv.1) then Some kv.2 else Dict.last_value k items.
Proof.
  unfold Dict.last_value. rewrite omap_app. simpl.
  destruct (decide (k = kv.1)); simpl.
  - by rewrite last_snoc.
  - by rewrite app_nil_r.
Qed.


Lemma dict_get_fold_set k items d :
  Dict.get k (fold_left (fun d kv => Dict.set kv.1 kv.2 d) items d) =
  match Dict.last_value k items with
  | Some v => Some v
  | None => Dict.get k d
  end.
Proof.
  revert d. induction items as [|kv items IH] using rev_ind; intros d.
  - done.
  - rewrite fold_left_app, last_value_snoc. simpl.
    rewrite dict_get_set. destruct (decide (k = kv.1)); [done|apply IH].
Qed.

(** A comprehension keeps, for every key, the value it met last. *)
Lemma dict_get_of_items k items :
  Dict.get k (Dict.of_items items) = Dict.last_value k items.
Proof.
  unfold Dict.of_items. rewrite dict_get_fold_set. by destruct Dict.last_value.
Qed.

Lemma last_value_Some k items v :
  Dict.last_value k items = Some v -> (k, v) ∈ items.
Proof.
  induction items as [|kv items IH] using rev_ind; [done|].
  rewrite last_value_snoc, elem_of_app, list_elem_of_singleton.
  destruct kv as [k0 v0]; simpl.
  destruct (decide (k = k0)) as [->|]; [intros [= ->]; by right|].
  intros ?. left. auto.
Qed.

Lemma last_value_None k items :
  Dict.last_value k items = None <-> k ∉ items.*1.
Proof.
  induction items as [|kv items IH] using rev_ind.
  - split; [intros _; apply not_elem_of_nil|done].
  - rewrite last_value_snoc, fmap_app, not_elem_of_app. simpl.
    rewrite list_elem_of_singleton.
    destruct (decide (k = kv.1)); [|tauto].
    split; [done|]. by intros [_ ?].
Qed.

End dict_facts.

Lemma Sorted_weaken {A} (R1 R2 : relation A) (l : list A) :
  (forall x y, R1 x y -> R2 x y) -> Sorted R1 l -> Sorted R2 l.
Proof.
  intros HR. induction 1 as [|x l Hl IH Hhd]; constructor; [done|].
  destruct Hhd; constructor; auto.
Qed.

Lemma StronglySorted_lookup {A} (R : relation A) (l : list A) i j x y :
  StronglySorted R l -> l !! i = Some x -> l !! j = Some y -> (i < j)%nat ->
  R x y.
Proof.
  intros Hl. revert i j. induction Hl as [|a l Hl IH Hall]; intros i j; [done|].
  destruct i as [|i], j as [|j]; simpl; try lia.
  - intros [= ->] Hj _. rewrite Forall_forall in Hall. apply Hall.
    apply list_elem_of_lookup. eauto.
  - intros ? ? ?. apply (IH i j); [done..|lia].
Qed.

(** ** Label Remapper *)

Lemma label_items_perm t : label_items t ≡ₚ t.
Proof. apply sorted_perm. Qed.

Lemma label_items_sorted t :
  StronglySorted (fun x y : string * Z => x.2 <= y.2) (label_items t).
Proof.
  apply Sorted_StronglySorted.
  { intros x y z ? ?. lia. }
  eapply Sorted_weaken; [|apply sorted_Sorted].
  - intros x y H. simpl in H. by apply Z.leb_le.
  - intros x y H. apply Z.leb_le. apply Z.leb_gt in H. lia.
Qed.

Lemma id_pairs_lookup t i old new :
  id_pairs t !! i = Some (old, new) <->
  new = Z.of_nat i /\ exists name, label_items t !! i = Some (name, old).
Proof.
  unfold id_pairs, enumerate. rewrite list_lookup_fmap, list_lookup_imap.
  destruct (label_items t !! i) as [[name o]|]; simpl.
  - split.
    + intros [= <- <-]. eauto.
    + intros [-> [name' [= _ ->]]]. done.
  - split; [done|]. by intros [_ [? ?]].
Qed.

Lemma id_pairs_keys t : (id_pairs t).*1 ≡ₚ t.*2.
Proof.
  transitivity ((label_items t).*2); [|by rewrite label_items_perm].
  unfold id_pairs, enumerate. generalize (label_items t). intros l.
  assert (forall f : nat -> nat,
    (map (fun '(new_id, (_, old_id)) => (old_id, new_id))
      (imap (fun i x => (Z.of_nat (f i), x)) l)).*1 = l.*2) as H.
  { induction l as [|[n o] l IH]; intros f; simpl; [done|].
    f_equal. apply (IH (f ∘ S)). }
  by rewrite <-(H id).
Qed.

Lemma new_id_map_get t old :
  Dict.get old (new_id_map t) = Dict.last_value old (id_pairs t).
Proof. apply dict_get_of_items. Qed.

(** Every new ID is the rank of an entry of the sorted table that carries
    the original ID. *)
Lemma new_id_map_rank t old new :
  Dict.get old (new_id_map t) = Some new ->
  exists (i : nat) name,
    new = Z.of_nat i /\ label_items t !! i = Some (name, old).
Proof.
  rewrite new_id_map_get. intros Hin%last_value_Some.
  apply list_elem_of_lookup in Hin as [i Hi].
  apply id_pairs_lookup in Hi as [-> [name Hi]]. eauto.
Qed.

(** The original IDs are the keys of the mapping. *)
Lemma new_id_map_dom t old :
  old ∈ t.*2 <-> is_Some (Dict.get old (new_id_map t)).
Proof.
  rewrite new_id_map_get, <-id_pairs_keys, <-not_eq_None_Some.
  rewrite last_value_None. split; [tauto|].
  intros H. by destruct (decide (old ∈ (id_pairs t).*1)).
Qed.

(** The mapping is strictly increasing, with or without collisions. *)
Lemma new_id_map_increasing t old1 old2 new1 new2 :
  Dict.get old1 (new_id_map t) = Some new1 ->
  Dict.get old2 (new_id_map t) = Some new2 ->
  old1 < old2 -> new1 < new2.
Proof.
  intros (i1 & n1 & -> & H1)%new_id_map_rank (i2 & n2 & -> & H2)%new_id_map_rank Hlt.
  destruct (decide (i1 < i2)%nat) as [|Hge]; [lia|].
  destruct (decide (i1 = i2)) as [->|]; [simplify_eq; lia|].
  pose proof (StronglySorted_lookup _ _ i2 i1 _ _ (label_items_sorted t) H2 H1)
    as Hle. simpl in Hle. lia.
Qed.

Lemma new_id_map_range t old new :
  Dict.get old (new_id_map t) = Some new -> 0 <= new < Z.of_nat (length t).
Proof.
  intros (i & n & -> & Hi)%new_id_map_rank.
  apply lookup_lt_Some in Hi. unfold label_items in Hi.
  rewrite sorted_length in Hi. lia.
Qed.

Lemma remove_dups_NoDup {A} `{EqDecision A} (l : list A) :
  NoDup l -> remove_dups l = l.
Proof.
  induction 1 as [|x l Hx Hl IH]; simpl; [done|].
  destruct (decide_rel elem_of x l); [done|]. by rewrite IH.
Qed.

(** C2, as the code has it: on the collision scenario the two entries with
    original ID 2 take the ranks 0 and 1, the mapping keeps the later one,
    and the label table is the one of the scenario. *)
Theorem remap_scenario :
  new_id_map scenario_table = [(2, 1); (5, 2)] /\
  remapped_labels scenario_table = [("Bone", 0); ("Gum", 1); ("Tooth", 2)].
Proof. split; reflexivity. Qed.

(** C2, as stated, does not hold: the mapping does not send 2 to 0. *)
Lemma remap_scenario_refuted :
  ~ (same_dict (new_id_map scenario_table) [(2, 0); (5, 1)] /\
     same_dict (remapped_labels scenario_table)
               [("Bone", 0); ("Gum", 1); ("Tooth", 2)]).
Proof. intros [H _]. specialize (H 2). vm_compute in H. discriminate. Qed.

(** C3, as stated, does not hold: on the collision scenario there are two
    distinct original IDs and 5 gets the new ID 2. *)
Lemma new_id_map_not_dense :
  ~ dense_renumbering scenario_table.*2 (new_id_map scenario_table).
Proof.
  intros (_ & Hrange & _). specialize (Hrange 5 2 eq_refl).
  vm_compute in Hrange. destruct Hrange as [_ H]. discriminate H.
Qed.

(** C3, amended: when the original IDs of the label table are pairwise
    distinct, the ID mapping is a bijection from the original IDs onto
    0 .. N-1 and is strictly increasing. *)
Theorem new_id_map_dense (t : label_table) :
  NoDup t.*2 -> dense_renumbering t.*2 (new_id_map t).
Proof.
  intros Hnd. unfold dense_renumbering.
  rewrite remove_dups_NoDup, length_fmap by done.
  split; [apply new_id_map_dom|].
  split; [apply new_id_map_range|].
  split; [|split].
  - intros new [Hlo Hhi].
    destruct (lookup_lt_is_Some_2 (label_items t) (Z.to_nat new))
      as [[name old] Hi].
    { unfold label_items. rewrite sorted_length. lia. }
    exists old.
    assert (old ∈ t.*2) as Hin.
    { rewrite <-(label_items_perm t).
      apply (list_elem_of_fmap_2 snd _ (name, old)), list_elem_of_lookup; eauto. }
    apply new_id_map_dom in Hin as [new' Hget]. rewrite Hget. f_equal.
    apply new_id_map_rank in Hget as (i & name' & -> & Hi').
    assert (NoDup (label_items t).*2) as Hnd' by by rewrite label_items_perm.
    assert (i = Z.to_nat new); [|lia].
    apply (NoDup_lookup _ _ _ old Hnd'); rewrite list_lookup_fmap.
    + by rewrite Hi'.
    + by rewrite Hi.
  - intros old1 old2 new H1 H2.
    destruct (Z.lt_total old1 old2) as [Hlt|[?|Hlt]]; [|done|].
    + pose proof (new_id_map_increasing _ _ _ _ _ H1 H2 Hlt). lia.
    + pose proof (new_id_map_increasing _ _ _ _ _ H2 H1 Hlt). lia.
  - apply new_id_map_increasing.
Qed.

Lemma new_id_map_dense_witness :
  NoDup [("background", 0); ("Tooth", 5); ("Bone", 2)].*2 /\
  dense_renumbering [("background", 0); ("Tooth", 5); ("Bone", 2)].*2
    (new_id_map [("background", 0); ("Tooth", 5); ("Bone", 2)]).
Proof.
  assert (NoDup [("background", 0); ("Tooth", 5); ("Bone", 2)].*2) as H.
  { apply (@bool_decide_unpack _ (NoDup_dec _)). vm_compute. exact I. }
  split; [exact H|]. apply (new_id_map_dense _ H).
Defined.

(** ** Volume Relabeler *)

Lemma last_value_NoDup {K V} `{EqDecision K} (k : K) (items : list (K * V)) :
  NoDup items.*1 -> Dict.last_value k items = Dict.get k items.
Proof.
  intros Hnd. destruct (Dict.last_value k items) as [v|] eqn:Hl.
  - symmetry. apply dict_get_elem_NoDup; [done|]. by apply last_value_Some.
  - symmetry. apply dict_get_None. by apply last_value_None.
Qed.




Lemma remap_loop_is_Some data items r :
  Forall (fun kv => 0 <= kv.2 < 65536) items ->
  is_Some (remap_loop data r items).
Proof.
  intros H. revert r. induction H as [|[old new] items Hx _ IH]; intros r; simpl.
  - eauto.
  - unfold np_uint16. simpl in Hx. rewrite decide_True by done. apply IH.
Qed.


(** ** The file-system monad *)

Lemma bind_Some {A B} (m : M A) (k : A -> M B) fs b fs' :
  bind m k fs = Some (b, fs') <->
  exists a fs1, m fs = Some (a, fs1) /\ k a fs1 = Some (b, fs').
Proof.
  unfold bind. destruct (m fs) as [[a fs1]|]; [|naive_solver].
  split; [eauto|]. by intros (? & ? & [= <- <-] & ?).
Qed.

Lemma lift_Some {A} (o : option A) fs a fs' :
  lift o fs = Some (a, fs') <-> o = Some a /\ fs' = fs.
Proof. unfold lift. destruct o; naive_solver. Qed.

Lemma ret_Some {A} (x : A) fs a fs' :
  ret x fs = Some (a, fs') <-> a = x /\ fs' = fs.
Proof. unfold ret. naive_solver. Qed.

Lemma run_final (r : option (unit * FS)) :
  succeeds r = true -> r = Some (tt, final_fs r).
Proof. by destruct r as [[[] ?]|]. Qed.

Lemma run_result {A} (r : option (A * FS)) (a : A) :
  succeeds r = true -> r = Some ((default (a, ∅) r).1, (default (a, ∅) r).2).
Proof. by destruct r as [[? ?]|]. Qed.

(** Splits a successful run of a sequence into the runs of its steps. *)
Ltac inv_run :=
  repeat match goal with
    | H : bind _ _ _ = Some _ |- _ =>
        apply bind_Some in H as (? & ? & ? & H)
    | H : lift _ _ = Some _ |- _ => apply lift_Some in H as [? ->]
    | H : ret _ _ = Some _ |- _ => apply ret_Some in H as [-> ->]
    | H : raise _ = Some _ |- _ => discriminate H
    | u : unit |- _ => destruct u
    end.

(** ** Paths and single files *)

Lemma path_split (p : path) name :
  os_path_basename p = Some name -> p = os_path_join (os_path_dirname p) name.
Proof.
  unfold os_path_basename, os_path_dirname, os_path_join.
  intros [l ->]%last_Some. by rewrite removelast_last.
Qed.

Lemma dirname_join d name : os_path_dirname (os_path_join d name) = d.
Proof. apply removelast_last. Qed.

Lemma basename_join d name : os_path_basename (os_path_join d name) = Some name.
Proof. apply last_snoc. Qed.

Lemma join_inj d1 d2 n1 n2 :
  os_path_join d1 n1 = os_path_join d2 n2 -> d1 = d2 /\ n1 = n2.
Proof. unfold os_path_join. intros H. by apply app_inj_tail in H. Qed.

Lemma join_ne_dir d name : os_path_join d name <> d.
Proof.
  unfold os_path_join. intros H. apply (f_equal length) in H.
  rewrite length_app in H. simpl in H. lia.
Qed.

Lemma file_at_join (fs : FS) d name :
  file_at fs (os_path_join d name) = fs !! d ≫= (fun dir => dir !! name).
Proof. unfold file_at. by rewrite basename_join, dirname_join. Qed.

Lemma file_at_nil (fs : FS) : file_at fs [] = None.
Proof. done. Qed.

Lemma file_at_makedirs d fs fs' q :
  os_makedirs d fs = Some (tt, fs') -> file_at fs' q = file_at fs q.
Proof.
  unfold os_makedirs. intros [= <-].
  destruct (fs !! d) eqn:Hd; [done|].
  unfold file_at. destruct (os_path_basename q); simpl; [|done].
  destruct (decide (d = os_path_dirname q)) as [->|].
  - by rewrite lookup_insert_eq, Hd.
  - by rewrite lookup_insert_ne.
Qed.

Lemma makedirs_lookup d fs fs' d' :
  os_makedirs d fs = Some (tt, fs') ->
  fs' !! d' = if decide (d' = d) then Some (default ∅ (fs !! d)) else fs !! d'.
Proof.
  unfold os_makedirs. intros [= <-]. destruct (decide (d' = d)) as [->|].
  - destruct (fs !! d) eqn:Hd; [done|]. by rewrite lookup_insert_eq.
  - destruct (fs !! d); [done|]. by rewrite lookup_insert_ne.
Qed.

Lemma file_at_write p f fs fs' q :
  write_file p f fs = Some (tt, fs') ->
  file_at fs' q = if decide (q = p) then Some f else file_at fs q.
Proof.
  unfold write_file.
  destruct (os_path_basename p) as [name|] eqn:Hn; [|done].
  destruct (fs !! os_path_dirname p) as [dir|] eqn:Hd; [|done].
  intros [= <-]. pose proof Hn as Hb. apply path_split in Hn.
  destruct (decide (q = p)) as [->|Hne].
  - unfold file_at. rewrite Hb. simpl. rewrite lookup_insert_eq. simpl.
    apply lookup_insert_eq.
  - unfold file_at. destruct (os_path_basename q) as [qn|] eqn:Hq; [|done].
    simpl. apply path_split in Hq.
    destruct (decide (os_path_dirname p = os_path_dirname q)) as [Heq|].
    + rewrite <-Heq, lookup_insert_eq, Hd. simpl.
      apply lookup_insert_ne. intros ->. apply Hne. congruence.
    + by rewrite lookup_insert_ne.
Qed.

Lemma file_at_remove p fs fs' q :
  remove_file p fs = Some (tt, fs') ->
  file_at fs' q = if decide (q = p) then None else file_at fs q.
Proof.
  unfold remove_file.
  destruct (os_path_basename p) as [name|] eqn:Hn; [|done].
  destruct (fs !! os_path_dirname p) as [dir|] eqn:Hd; [|done].
  intros [= <-]. pose proof Hn as Hb. apply path_split in Hn.
  destruct (decide (q = p)) as [->|Hne].
  - unfold file_at. rewrite Hb. simpl. rewrite lookup_insert_eq. simpl.
    apply lookup_delete_eq.
  - unfold file_at. destruct (os_path_basename q) as [qn|] eqn:Hq; [|done].
    simpl. apply path_split in Hq.
    destruct (decide (os_path_dirname p = os_path_dirname q)) as [Heq|].
    + rewrite <-Heq, lookup_insert_eq, Hd. simpl.
      apply lookup_delete_ne. intros ->. apply Hne. congruence.
    + by rewrite lookup_insert_ne.
Qed.

Lemma read_file_Some p fs f fs' :
  read_file p fs = Some (f, fs') <-> file_at fs p = Some f /\ fs' = fs.
Proof. unfold read_file. destruct (file_at fs p); naive_solver. Qed.

Lemma nib_load_Some p fs img fs' :
  nib_load p fs = Some (img, fs') <->
  file_at fs p = Some (NiftiFile img) /\ fs' = fs /\
  exists name, os_path_basename p = Some name /\ nifti_name name = true.
Proof.
  unfold nib_load. rewrite bind_Some. split.
  - intros (f & fs1 & [Hf ->]%read_file_Some & Hr).
    destruct (os_path_basename p) as [name|]; [|by destruct f].
    destruct f; try done.
    destruct (nifti_name name) eqn:Hname; [|done].
    apply ret_Some in Hr as [-> ->]. eauto.
  - intros (Hf & -> & name & Hname & Hnifti). exists (NiftiFile img), fs.
    rewrite read_file_Some, Hname, Hnifti. done.
Qed.

Lemma json_load_Some p fs j fs' :
  json_load p fs = Some (j, fs') <->
  file_at fs p = Some (JsonFile j) /\ fs' = fs.
Proof.
  unfold json_load. rewrite bind_Some. split.
  - intros (f & fs1 & [Hf ->]%read_file_Some & Hr).
    destruct f; inv_run; done.
  - intros [Hf ->]. exists (JsonFile j), fs.
    by rewrite read_file_Some.
Qed.

(** The effect of a move on every path. *)
Lemma file_at_move src dst fs fs' q :
  shutil_move src dst fs = Some (tt, fs') ->
  is_Some (file_at fs src) /\
  file_at fs' q =
    if decide (q = dst) then file_at fs src
    else if decide (q = src) then None else file_at fs q.
Proof.
  unfold shutil_move. intros H. inv_run.
  match goal with H : read_file _ _ = _ |- _ =>
    apply read_file_Some in H as [Hf ->] end.
  match goal with H : remove_file _ _ = _ |- _ =>
    pose proof (fun q => file_at_remove _ _ _ q H) as Hrm end.
  rewrite (file_at_write _ _ _ _ q H), Hrm, Hf. split; [eauto|].
  by destruct (decide (q = dst)).
Qed.

(** ** Volume Relabeler: C4 and C6 *)

(** What a successful call of [remap_labels_in_nii] has done. *)
Lemma remap_labels_in_nii_run input_path output_path id_mapping fs fs' :
  remap_labels_in_nii input_path output_path id_mapping fs = Some (tt, fs') ->
  exists img remapped_data,
    file_at fs input_path = Some (NiftiFile img) /\
    remap_loop (dataobj img) (zeros_like (dataobj img)) id_mapping
      = Some remapped_data /\
    forall q, file_at fs' q =
      if decide (q = output_path)
      then Some (nib_encode {| affine := affine img; header := header img;
                               dataobj := remapped_data |})
      else file_at fs q.
Proof.
  unfold remap_labels_in_nii, nib_save. intros H. inv_run.
  match goal with H : nib_load _ _ = _ |- _ =>
    apply nib_load_Some in H as (Himg & -> & _) end.
  destruct (os_path_basename output_path) as [name|]; [|done].
  destruct (nifti_name name); [|done].
  eexists _, _. split; [done|]. split; [done|].
  intros q. by apply file_at_write.
Qed.






(** C6, amended: the volume handed to [nib.save] has the affine and the
    header of the input volume, and the output file holds that volume as it
    is when its voxels fit the data type of the header; the call writes no
    other file than the output, so the input volume is as it was when the
    output path is another path. *)
Theorem remap_labels_in_nii_framing input_path output_path id_mapping fs fs' :
  remap_labels_in_nii input_path output_path id_mapping fs = Some (tt, fs') ->
  exists img new_img,
    file_at fs input_path = Some (NiftiFile img) /\
    affine new_img = affine img /\
    header new_img = header img /\
    file_at fs' output_path = Some (nib_encode new_img) /\
    (fits_dtype new_img = true ->
     file_at fs' output_path = Some (NiftiFile new_img)) /\
    (input_path <> output_path ->
     file_at fs' input_path = Some (NiftiFile img)) /\
    (forall q, q <> output_path -> file_at fs' q = file_at fs q).
Proof.
  intros (img & out & Himg & Hloop & Hfs)%remap_labels_in_nii_run.
  exists img, {| affine := affine img; header := header img; dataobj := out |}.
  split; [done|]. simpl. split; [done|]. split; [done|].
  split_and!.
  - rewrite Hfs. by rewrite decide_True.
  - intros Hfit. rewrite Hfs, decide_True by done.
    unfold nib_encode. by rewrite Hfit.
  - intros Hne. rewrite Hfs. by rewrite decide_False.
  - intros q Hne. rewrite Hfs. by rewrite decide_False.
Qed.

Lemma remap_labels_in_nii_framing_witness :
  let input_path := ["in"; "labelsTr"; "ToothFairy3F_001.nii.gz"] in
  let output_path := ["in"; "ToothFairy3F_001.nii.gz"] in
  let id_mapping := [(2, 1); (5, 2)] in
  let fs' := final_fs (remap_labels_in_nii input_path output_path id_mapping
                                           sample_fs) in
  remap_labels_in_nii input_path output_path id_mapping sample_fs
    = Some (tt, fs') /\
  exists img new_img,
    file_at sample_fs input_path = Some (NiftiFile img) /\
    affine new_img = affine img /\
    header new_img = header img /\
    file_at fs' output_path = Some (nib_encode new_img) /\
    (fits_dtype new_img = true ->
     file_at fs' output_path = Some (NiftiFile new_img)) /\
    (input_path <> output_path ->
     file_at fs' input_path = Some (NiftiFile img)) /\
    (forall q, q <> output_path -> file_at fs' q = file_at sample_fs q).
Proof.
  intros input_path output_path id_mapping fs'.
  assert (remap_labels_in_nii input_path output_path id_mapping sample_fs
          = Some (tt, fs')) as Hrun.
  { apply run_final. vm_compute. reflexivity. }
  split; [exact Hrun|].
  exact (remap_labels_in_nii_framing _ _ _ _ _ Hrun).
Defined.

(** C6, as stated, does not hold.  A call whose output path is the input
    path replaces the input volume by the relabeled one; and with the
    mapping {5: 300, 2: 4} the [uint8] sample volume is written rescaled,
    with scale factors that the input did not have. *)
Lemma remap_labels_in_nii_in_place :
  let p := ["in"; "labelsTr"; "ToothFairy3F_001.nii.gz"] in
  let r := remap_labels_in_nii p p [(2, 1); (5, 2)] sample_fs in
  let r' := remap_labels_in_nii p ["in"; "ToothFairy3F_001.nii.gz"]
              [(5, 300); (2, 4)] sample_fs in
  file_at sample_fs p = Some (sample_volume [0; 5; 2; 7]) /\
  r = Some (tt, final_fs r) /\
  file_at (final_fs r) p = Some (sample_volume [0; 2; 1; 0]) /\
  file_at (final_fs r) p <> file_at sample_fs p /\
  r' = Some (tt, final_fs r') /\
  ~ (exists new_img,
       file_at (final_fs r') ["in"; "ToothFairy3F_001.nii.gz"]
         = Some (NiftiFile new_img)).
Proof.
  intros p r r'.
  assert (file_at sample_fs p = Some (sample_volume [0; 5; 2; 7])) as H0
    by (vm_compute; reflexivity).
  assert (file_at (final_fs r) p = Some (sample_volume [0; 2; 1; 0])) as H1
    by (vm_compute; reflexivity).
  assert (file_at (final_fs r') ["in"; "ToothFairy3F_001.nii.gz"]
    = Some (ScaledNiftiFile {| affine := "affine"; header := sample_header;
                               dataobj := [0; 300; 4; 0] |})) as H2
    by (vm_compute; reflexivity).
  split; [exact H0|]. split; [apply run_final; vm_compute; reflexivity|].
  split; [exact H1|]. split; [rewrite H0, H1; discriminate|].
  split; [apply run_final; vm_compute; reflexivity|].
  intros (new_img & Hfile). rewrite H2 in Hfile. discriminate.
Qed.

(** ** Pair Splitter: the selection *)

Lemma endswith_refl s : Str.endswith s s = true.
Proof. destruct s; [done|]. unfold Str.endswith. by rewrite String.eqb_refl. Qed.

Lemma endswith_cons c s suf :
  Str.endswith (String c s) suf =
  if String.eqb (String c s) suf then true else Str.endswith s suf.
Proof. reflexivity. Qed.

Lemma endswith_app s suf : Str.endswith (s +:+ suf) suf = true.
Proof.
  induction s as [|c s IH]; [apply endswith_refl|].
  change (String c s +:+ suf) with (String c (s +:+ suf)).
  rewrite endswith_cons, IH. by destruct (String.eqb _ _).
Qed.

Lemma filter_Permutation {A} (f : A -> bool) (l1 l2 : list A) :
  l1 ≡ₚ l2 -> List.filter f l1 ≡ₚ List.filter f l2.
Proof.
  induction 1 as [|x l1 l2 _ IH|x y l|l1 l2 l3 _ IH1 _ IH2]; simpl.
  - done.
  - destruct (f x); by rewrite IH.
  - destruct (f x), (f y); try done. apply Permutation_swap.
  - by rewrite IH1.
Qed.

Lemma filter_elem_of {A} (f : A -> bool) (l : list A) x :
  x ∈ List.filter f l <-> x ∈ l /\ f x = true.
Proof. rewrite !list_elem_of_In. apply filter_In. Qed.

(** The groups are the files that [in_group] tells, in the order of the
    listing. *)
Lemma group_step_lookup prefixes (g : gmap string (list string)) fname prefix :
  group_step prefixes g fname !!! prefix =
  (g !!! prefix ++ if in_group prefixes prefix fname then [fname] else [])%list.
Proof.
  unfold group_step, in_group.
  destruct (Str.endswith fname ".nii.gz"); simpl; [|by rewrite app_nil_r].
  destruct (List.find _ prefixes) as [p|]; [|by rewrite app_nil_r].
  destruct (decide (p = prefix)) as [->|Hne].
  - rewrite lookup_total_insert_eq. by rewrite bool_decide_eq_true_2.
  - rewrite lookup_total_insert_ne by done.
    rewrite bool_decide_eq_false_2 by congruence. by rewrite app_nil_r.
Qed.

Lemma groups_lookup prefixes names prefix : forall g : gmap string (list string),
  foldl (group_step prefixes) g names !!! prefix =
  (g !!! prefix ++ List.filter (in_group prefixes prefix) names)%list.
Proof.
  induction names as [|fname names IH]; intros g; simpl.
  - by rewrite app_nil_r.
  - rewrite IH, group_step_lookup.
    destruct (in_group prefixes prefix fname); by rewrite <-?app_assoc.
Qed.

Lemma groups_lookup_empty prefixes names prefix :
  foldl (group_step prefixes) (∅ : gmap string (list string)) names !!! prefix =
  List.filter (in_group prefixes prefix) names.
Proof. by rewrite groups_lookup, lookup_total_empty. Qed.

(** Sorting file names in reverse order forgets the order of the listing. *)
Lemma sorted_reverse_Sorted l : Sorted (flip String.le) (sorted_reverse l).
Proof.
  eapply Sorted_weaken; [|apply sorted_Sorted].
  - intros x y H. unfold flip, String.le. simpl in H. by rewrite H.
  - intros x y H. destruct (String.leb_total x y) as [H'|H']; [done|].
    congruence.
Qed.

Lemma sorted_reverse_perm l1 l2 :
  l1 ≡ₚ l2 -> sorted_reverse l1 = sorted_reverse l2.
Proof.
  intros Hp.
  assert (Transitive (flip String.le)) by (intros x y z ? ?; by etrans).
  assert (AntiSymm eq (flip String.le)).
  { intros x y ? ?. by apply (anti_symm String.le). }
  apply (Sorted_unique (flip String.le)); try apply sorted_reverse_Sorted.
  unfold sorted_reverse. by rewrite !sorted_perm.
Qed.

(** The loop takes candidates in turn until it has [max_per_prefix] pairs. *)
Lemma candidates_cons label_set fname fnames :
  candidates label_set (fname :: fnames) =
  ((if has_label label_set fname
    then [(fname, strip_image_id fname +:+ ".nii.gz")] else [])
   ++ candidates label_set fnames)%list.
Proof. unfold candidates. simpl. by destruct (has_label _ _). Qed.

Lemma match_loop_take label_set max_per_prefix fnames : forall matched,
  Z.of_nat (length matched) < max_per_prefix ->
  match_loop label_set max_per_prefix fnames matched =
  (matched ++ take (Z.to_nat max_per_prefix - length matched)
                  (candidates label_set fnames))%list.
Proof.
  induction fnames as [|fname fnames IH]; intros matched Hlt.
  - simpl. by rewrite take_nil, app_nil_r.
  - rewrite candidates_cons. cbn [match_loop]. unfold has_label.
    destruct (decide (strip_image_id fname ∈ label_set)) as [Hin|Hin].
    + rewrite bool_decide_eq_true_2 by done.
      destruct (decide _) as [Hge|Hnge].
      * rewrite length_app in Hge. simpl in Hge.
        replace (Z.to_nat max_per_prefix - length matched)%nat with 1%nat by lia.
        done.
      * rewrite length_app in Hnge. simpl in Hnge.
        rewrite IH by (rewrite length_app; simpl; lia).
        rewrite length_app. simpl. rewrite <-app_assoc. f_equal.
        replace (Z.to_nat max_per_prefix - length matched)%nat
          with (S (Z.to_nat max_per_prefix - (length matched + 1)))%nat by lia.
        done.
    + rewrite bool_decide_eq_false_2 by done.
      rewrite decide_False by lia. by apply IH.
Qed.

Lemma matched_pairs_take image_groups label_set max_per_prefix prefix :
  1 <= max_per_prefix ->
  matched_pairs image_groups label_set max_per_prefix prefix =
  take (Z.to_nat max_per_prefix)
       (candidates label_set (sorted_reverse (image_groups !!! prefix))).
Proof.
  intros H. unfold matched_pairs. rewrite match_loop_take by (simpl; lia).
  simpl. by rewrite Nat.sub_0_r.
Qed.

Lemma candidates_length label_set fnames :
  length (candidates label_set fnames) =
  length (List.filter (has_label label_set) fnames).
Proof.
  induction fnames as [|fname fnames IH]; [done|].
  rewrite candidates_cons. simpl. destruct (has_label _ _); simpl; by rewrite IH.
Qed.

(** Whatever the cap, a selected pair is an image of the list with its
    label name. *)
Lemma match_loop_elem label_set max_per_prefix fnames : forall matched pair,
  pair ∈ match_loop label_set max_per_prefix fnames matched ->
  pair ∈ matched \/
  exists fname, fname ∈ fnames /\ has_label label_set fname = true /\
                pair = (fname, strip_image_id fname +:+ ".nii.gz").
Proof.
  induction fnames as [|fname fnames IH]; intros matched pair; simpl; [auto|].
  assert (forall matched',
    matched' = (if decide (strip_image_id fname ∈ label_set)
                then (matched ++ [(fname, strip_image_id fname +:+ ".nii.gz")])%list
                else matched) ->
    pair ∈ matched' ->
    pair ∈ matched \/
    exists fname0, fname0 ∈ fname :: fnames /\ has_label label_set fname0 = true /\
                   pair = (fname0, strip_image_id fname0 +:+ ".nii.gz")) as Hstep.
  { intros matched' ->. destruct (decide _) as [Hin|]; [|auto].
    rewrite elem_of_app, list_elem_of_singleton. intros [? | ->]; [auto|].
    right. exists fname. split; [left|]. split; [|done].
    unfold has_label. by rewrite bool_decide_eq_true_2. }
  destruct (decide (_ >= _)).
  - by apply Hstep.
  - intros [Hin|(f & Hf & Hl & ->)]%IH.
    + by apply Hstep in Hin.
    + right. exists f. split; [by right|done].
Qed.

(** ** Directory listings *)

Lemma listing_elem (dir : gmap string File) name :
  name ∈ (map_to_list dir).*1 <-> name ∈ dom dir.
Proof.
  rewrite elem_of_dom, list_elem_of_fmap. split.
  - intros [[n f] [-> Hin]]. apply elem_of_map_to_list in Hin. eauto.
  - intros [f Hf]. exists (name, f). split; [done|].
    by apply elem_of_map_to_list.
Qed.

Lemma listing_perm (dir1 dir2 : gmap string File) :
  dom dir1 = dom dir2 -> (map_to_list dir1).*1 ≡ₚ (map_to_list dir2).*1.
Proof.
  intros Hdom. apply NoDup_Permutation; try apply NoDup_fst_map_to_list.
  intros name. by rewrite !listing_elem, Hdom.
Qed.

Lemma os_listdir_Some ord d fs names fs' :
  os_listdir ord d fs = Some (names, fs') <->
  exists dir, fs !! d = Some dir /\ names = ord (map_to_list dir).*1 /\ fs' = fs.
Proof.
  unfold os_listdir. destruct (fs !! d) as [dir|]; [|naive_solver].
  split.
  - intros [= <- <-]. eauto.
  - intros (dir' & [= <-] & -> & ->). done.
Qed.

Lemma collect_image_files_by_prefix_Some ord images_dir prefixes fs g fs' :
  collect_image_files_by_prefix ord images_dir prefixes fs = Some (g, fs') <->
  exists dir, fs !! images_dir = Some dir /\
              g = groups_of prefixes (ord (map_to_list dir).*1) /\ fs' = fs.
Proof.
  unfold collect_image_files_by_prefix. rewrite bind_Some. split.
  - intros (names & fs1 & (dir & Hd & -> & ->)%os_listdir_Some & [-> ->]%ret_Some).
    eauto.
  - intros (dir & Hd & -> & ->). eexists _, fs. split; [|done].
    apply os_listdir_Some. eauto.
Qed.

Lemma collect_label_set_Some ord labels_dir fs s fs' :
  collect_label_set ord labels_dir fs = Some (s, fs') <->
  exists dir, fs !! labels_dir = Some dir /\
              s = label_set_of (ord (map_to_list dir).*1) /\ fs' = fs.
Proof.
  unfold collect_label_set. rewrite bind_Some. split.
  - intros (names & fs1 & (dir & Hd & -> & ->)%os_listdir_Some & [-> ->]%ret_Some).
    eauto.
  - intros (dir & Hd & -> & ->). eexists _, fs. split; [|done].
    apply os_listdir_Some. eauto.
Qed.

Lemma selected_pairs_Some ord images_dir labels_dir prefixes cap fs sel fs' :
  selected_pairs ord images_dir labels_dir prefixes cap fs = Some (sel, fs') <->
  exists idir ldir,
    fs !! images_dir = Some idir /\ fs !! labels_dir = Some ldir /\
    sel = map (matched_pairs (groups_of prefixes (ord (map_to_list idir).*1))
                             (label_set_of (ord (map_to_list ldir).*1)) cap)
              prefixes /\
    fs' = fs.
Proof.
  unfold selected_pairs. rewrite bind_Some. split.
  - intros (g & fs1 & (idir & Hi & -> & ->)%collect_image_files_by_prefix_Some & H).
    apply bind_Some in H
      as (s & fs2 & (ldir & Hl & -> & ->)%collect_label_set_Some & [-> ->]%ret_Some).
    eauto 10.
  - intros (idir & ldir & Hi & Hl & -> & ->). eexists _, fs. split.
    { apply collect_image_files_by_prefix_Some. eauto. }
    apply bind_Some. eexists _, fs. split; [|done].
    apply collect_label_set_Some. eauto.
Qed.

Lemma label_set_of_perm names1 names2 :
  names1 ≡ₚ names2 -> label_set_of names1 = label_set_of names2.
Proof.
  intros Hp. unfold label_set_of. apply set_eq. intros x.
  rewrite !elem_of_list_to_set.
  assert (map (fun fname => Str.remove fname ".nii.gz")
              (List.filter (fun fname => Str.endswith fname ".nii.gz") names1)
          ≡ₚ map (fun fname => Str.remove fname ".nii.gz")
              (List.filter (fun fname => Str.endswith fname ".nii.gz") names2))
    as ->; [|done].
  apply Permutation_map. by apply filter_Permutation.
Qed.

Lemma matched_pairs_perm prefixes names1 names2 lnames1 lnames2 cap prefix :
  names1 ≡ₚ names2 -> lnames1 ≡ₚ lnames2 ->
  matched_pairs (groups_of prefixes names1) (label_set_of lnames1) cap prefix =
  matched_pairs (groups_of prefixes names2) (label_set_of lnames2) cap prefix.
Proof.
  intros Hn Hl. unfold matched_pairs, groups_of.
  rewrite !groups_lookup_empty, (label_set_of_perm _ _ Hl).
  by rewrite (sorted_reverse_perm _ _ (filter_Permutation _ _ _ Hn)).
Qed.

Lemma for_each_map {A B} (f : A -> B) (l : list A) (body : B -> M unit) fs :
  for_each (map f l) body fs = for_each l (fun x => body (f x)) fs.
Proof.
  revert fs. induction l as [|x l IH]; intros fs; simpl; [done|].
  unfold bind. destruct (body (f x) fs) as [[[] fs1]|]; [apply IH|done].
Qed.

Lemma for_each_app {A} (l1 l2 : list A) (body : A -> M unit) fs :
  for_each (l1 ++ l2) body fs = (for_each l1 body ;; for_each l2 body) fs.
Proof.
  revert fs. induction l1 as [|x l1 IH]; intros fs; simpl; [done|].
  unfold bind in *. destruct (body x fs) as [[[] fs1]|]; [apply IH|done].
Qed.

Lemma for_each_cons_Some {A} (x : A) l (body : A -> M unit) fs fs' :
  for_each (x :: l) body fs = Some (tt, fs') <->
  exists fs1, body x fs = Some (tt, fs1) /\ for_each l body fs1 = Some (tt, fs').
Proof.
  simpl. rewrite bind_Some. split.
  - intros ([] & fs1 & ? & ?). eauto.
  - intros (fs1 & ? & ?). eauto.
Qed.

Lemma move_matched_pairs_unfold ord images_dir labels_dir output_images_dir
    output_labels_dir prefixes cap fs :
  move_matched_pairs ord images_dir labels_dir output_images_dir
                     output_labels_dir prefixes cap fs =
  (os_makedirs output_images_dir ;;
   os_makedirs output_labels_dir ;;
   sel <- selected_pairs ord images_dir labels_dir prefixes cap ;;
   for_each sel (move_pairs images_dir labels_dir output_images_dir
                            output_labels_dir)) fs.
Proof.
  unfold move_matched_pairs, selected_pairs, bind.
  destruct (os_makedirs output_images_dir fs) as [[[] fs1]|]; [|done].
  destruct (os_makedirs output_labels_dir fs1) as [[[] fs2]|]; [|done].
  destruct (collect_image_files_by_prefix _ _ _ fs2) as [[g fs3]|]; [|done].
  destruct (collect_label_set _ _ fs3) as [[s fs4]|]; [|done].
  unfold ret. by rewrite for_each_map.
Qed.

(** C7: two runs of the splitter on directories that hold the same image
    names and the same label names select the same pairs for every prefix,
    whatever the order of the two listings; on the same file system they
    end in the same file system. *)
Theorem selected_pairs_deterministic ord1 ord2 images_dir labels_dir
    output_images_dir output_labels_dir prefixes cap fs1 fs2 :
  (forall l, ord1 l ≡ₚ l) -> (forall l, ord2 l ≡ₚ l) ->
  dir_names fs1 images_dir = dir_names fs2 images_dir ->
  dir_names fs1 labels_dir = dir_names fs2 labels_dir ->
  fst <$> selected_pairs ord1 images_dir labels_dir prefixes cap fs1 =
  fst <$> selected_pairs ord2 images_dir labels_dir prefixes cap fs2 /\
  (fs1 = fs2 ->
   move_matched_pairs ord1 images_dir labels_dir output_images_dir
                      output_labels_dir prefixes cap fs1 =
   move_matched_pairs ord2 images_dir labels_dir output_images_dir
                      output_labels_dir prefixes cap fs2).
Proof.
  intros Hord1 Hord2.
  assert (forall fsa fsb,
    dir_names fsa images_dir = dir_names fsb images_dir ->
    dir_names fsa labels_dir = dir_names fsb labels_dir ->
    fst <$> selected_pairs ord1 images_dir labels_dir prefixes cap fsa =
    fst <$> selected_pairs ord2 images_dir labels_dir prefixes cap fsb) as Hsel.
  { unfold dir_names. intros fsa fsb Hi Hl.
    destruct (selected_pairs ord1 _ _ _ _ fsa) as [[sel1 fsa']|] eqn:H1.
    - apply selected_pairs_Some in H1 as (idir1 & ldir1 & Hi1 & Hl1 & -> & ->).
      rewrite Hi1 in Hi. rewrite Hl1 in Hl.
      destruct (fsb !! images_dir) as [idir2|] eqn:Hi2; [|done].
      destruct (fsb !! labels_dir) as [ldir2|] eqn:Hl2; [|done].
      simpl in Hi, Hl. injection Hi as Hi. injection Hl as Hl.
      assert (selected_pairs ord2 images_dir labels_dir prefixes cap fsb
              = Some (map (matched_pairs
                             (groups_of prefixes (ord2 (map_to_list idir2).*1))
                             (label_set_of (ord2 (map_to_list ldir2).*1)) cap)
                          prefixes, fsb)) as ->.
      { apply selected_pairs_Some. eauto 10. }
      simpl. f_equal. apply map_ext. intros prefix.
      apply matched_pairs_perm.
      + by rewrite Hord1, Hord2, (listing_perm _ _ Hi).
      + by rewrite Hord1, Hord2, (listing_perm _ _ Hl).
    - destruct (selected_pairs ord2 _ _ _ _ fsb) as [[sel2 fsb']|] eqn:H2; [|done].
      apply selected_pairs_Some in H2 as (idir2 & ldir2 & Hi2 & Hl2 & -> & ->).
      rewrite Hi2 in Hi. rewrite Hl2 in Hl.
      destruct (fsa !! images_dir) as [idir1|] eqn:Hi1; [|done].
      destruct (fsa !! labels_dir) as [ldir1|] eqn:Hl1; [|done].
      assert (is_Some (selected_pairs ord1 images_dir labels_dir prefixes cap fsa))
        as [? Hs]; [|by rewrite Hs in H1].
      eexists. apply selected_pairs_Some. eauto 10. }
  intros Hi Hl. split; [by apply Hsel|].
  intros <-. rewrite !move_matched_pairs_unfold. unfold bind.
  destruct (os_makedirs output_images_dir fs1) as [[[] fsa]|]; [|done].
  destruct (os_makedirs output_labels_dir fsa) as [[[] fsb]|]; [|done].
  specialize (Hsel fsb fsb eq_refl eq_refl).
  destruct (selected_pairs ord1 _ _ _ _ fsb) as [[sel1 fs1']|] eqn:H1;
    destruct (selected_pairs ord2 _ _ _ _ fsb) as [[sel2 fs2']|] eqn:H2;
    try done.
  apply selected_pairs_Some in H1 as (_ & _ & _ & _ & _ & ->).
  apply selected_pairs_Some in H2 as (_ & _ & _ & _ & _ & ->).
  simpl in Hsel. by injection Hsel as ->.
Qed.

(** ** Pair Splitter: the moves *)

Lemma move_pairs_moves images_dir labels_dir output_images_dir output_labels_dir
    matched fs :
  move_pairs images_dir labels_dir output_images_dir output_labels_dir matched fs =
  for_each (moves_of images_dir labels_dir output_images_dir output_labels_dir
                     matched)
           (fun '(src, dst) => shutil_move src dst) fs.
Proof.
  revert fs. unfold move_pairs.
  induction matched as [|[img lbl] matched IH]; intros fs; simpl; [done|].
  unfold bind at 1 2. unfold bind at 2 3.
  destruct (shutil_move _ _ fs) as [[[] fs1]|]; [|done].
  destruct (shutil_move _ _ fs1) as [[[] fs2]|]; [|done].
  apply IH.
Qed.

Lemma for_each_concat {A} (ls : list (list A)) (body : A -> M unit) fs :
  for_each ls (fun l => for_each l body) fs = for_each (concat ls) body fs.
Proof.
  revert fs. induction ls as [|l ls IH]; intros fs; simpl; [done|].
  rewrite for_each_app. unfold bind.
  destruct (for_each l body fs) as [[[] fs1]|]; [apply IH|done].
Qed.

Lemma for_each_ext {A} (l : list A) (body1 body2 : A -> M unit) fs :
  (forall x fs, body1 x fs = body2 x fs) ->
  for_each l body1 fs = for_each l body2 fs.
Proof.
  intros H. revert fs. induction l as [|x l IH]; intros fs; simpl; [done|].
  unfold bind. rewrite H. destruct (body2 x fs) as [[[] fs1]|]; [apply IH|done].
Qed.

(** A completed sequence of moves from source places to destination places,
    where a destination tells its source: every source was there and is
    gone, every destination holds what its source held, and the other paths
    are as they were. *)
Lemma moves_run (S D : path -> Prop) (moves : list (path * path)) :
  (forall q, S q -> D q -> False) ->
  forall fs fs',
  (forall src dst, (src, dst) ∈ moves -> S src /\ D dst) ->
  (forall src dst src' dst',
      (src, dst) ∈ moves -> (src', dst') ∈ moves -> dst = dst' -> src = src') ->
  for_each moves (fun '(src, dst) => shutil_move src dst) fs = Some (tt, fs') ->
  NoDup moves.*1 /\
  (forall src dst, (src, dst) ∈ moves ->
     is_Some (file_at fs src) /\ file_at fs' src = None /\
     file_at fs' dst = file_at fs src) /\
  (forall q, q ∉ moves.*1 -> q ∉ moves.*2 -> file_at fs' q = file_at fs q).
Proof.
  intros Hdisj. induction moves as [|[s d] moves IH]; intros fs fs' HSD Hinj Hrun.
  - simpl in Hrun. injection Hrun as <-. split; [constructor|].
    split; [by intros ? ? ?%elem_of_nil|done].
  - apply for_each_cons_Some in Hrun as (fs1 & Hmv & Hrun).
    pose proof (fun q => proj2 (file_at_move _ _ _ _ q Hmv)) as Hfs1.
    apply file_at_move with (q := s) in Hmv as [Hs _].
    destruct (HSD s d) as [HSs HDd]; [left|].
    assert (s <> d) as Hsd by (intros ->; eauto).
    apply IH in Hrun as (Hnd & Hmoved & Hframe); cycle 1.
    { intros ? ? ?. apply HSD. by right. }
    { intros ? ? ? ? ? ?. apply Hinj; by right. }
    assert (s ∉ moves.*1) as Hs1.
    { intros ((s' & d') & Heq & Hin)%list_elem_of_fmap. simpl in Heq. subst s'.
      apply Hmoved in Hin as [[f Hf] _].
      rewrite Hfs1, decide_False, decide_True in Hf by done. done. }
    assert (s ∉ moves.*2) as Hs2.
    { intros ((s' & d') & Heq & Hin)%list_elem_of_fmap. simpl in Heq. subst d'.
      apply (Hdisj s); [done|]. apply (HSD s' s). by right. }
    assert (d ∉ moves.*1) as Hd1.
    { intros ((s' & d') & Heq & Hin)%list_elem_of_fmap. simpl in Heq. subst s'.
      apply (Hdisj d); [|done]. apply (HSD d d'). by right. }
    assert (d ∉ moves.*2) as Hd2.
    { intros ((s' & d') & Heq & Hin)%list_elem_of_fmap. simpl in Heq. subst d'.
      assert (s = s') as <-. { apply (Hinj s d s' d); [left|by right|done]. }
      apply Hs1. by apply (list_elem_of_fmap_2 fst _ (s, d)). }
    split; [|split].
    + rewrite fmap_cons. by constructor.
    + intros src dst [[= -> ->]|Hin]%elem_of_cons.
      * split; [done|]. rewrite !Hframe by done. rewrite !Hfs1.
        rewrite decide_False, !decide_True by done. done.
      * destruct (Hmoved _ _ Hin) as ([f Hf] & Hgone & Hdst).
        rewrite Hfs1 in Hf, Hdst.
        assert (src <> d).
        { intros ->. apply Hd1. by apply (list_elem_of_fmap_2 fst _ (d, dst)). }
        assert (src <> s).
        { intros ->. apply Hs1. by apply (list_elem_of_fmap_2 fst _ (s, dst)). }
        rewrite !decide_False in Hf, Hdst by done. rewrite Hdst. eauto.
    + intros q Hq1 Hq2. rewrite fmap_cons in Hq1, Hq2.
      apply not_elem_of_cons in Hq1 as [? ?], Hq2 as [? ?]. simpl in *.
      rewrite Hframe, Hfs1 by done. by rewrite !decide_False.
Qed.

Lemma NoDup_four {A} (a b c d : A) :
  NoDup [a; b; c; d] ->
  a <> b /\ a <> c /\ a <> d /\ b <> c /\ b <> d /\ c <> d.
Proof. rewrite !NoDup_cons, !not_elem_of_cons. naive_solver. Qed.

Lemma moves_of_elem images_dir labels_dir output_images_dir output_labels_dir
    matched src dst :
  (src, dst) ∈ moves_of images_dir labels_dir output_images_dir
                        output_labels_dir matched <->
  exists image_fname label_fname,
    (image_fname, label_fname) ∈ matched /\
    ((src, dst) = (os_path_join images_dir image_fname,
                   os_path_join output_images_dir image_fname) \/
     (src, dst) = (os_path_join labels_dir label_fname,
                   os_path_join output_labels_dir label_fname)).
Proof.
  unfold moves_of. rewrite list_elem_of_In, in_flat_map. split.
  - intros ([img lbl] & Hin%list_elem_of_In & Hmv). exists img, lbl.
    split; [done|]. simpl in Hmv. naive_solver.
  - intros (img & lbl & Hin & Hmv). exists (img, lbl).
    split; [by apply list_elem_of_In|]. simpl. naive_solver.
Qed.

Lemma elem_of_concat {A} (x : A) (ls : list (list A)) :
  x ∈ concat ls <-> exists l, x ∈ l /\ l ∈ ls.
Proof.
  rewrite list_elem_of_In, in_concat. split.
  - intros (l & ?%list_elem_of_In & ?%list_elem_of_In). eauto.
  - intros (l & ?%list_elem_of_In & ?%list_elem_of_In). eauto.
Qed.

Lemma filter_length_perm {A} (f : A -> bool) (l1 l2 : list A) :
  l1 ≡ₚ l2 -> length (List.filter f l1) = length (List.filter f l2).
Proof. intros H. by rewrite (filter_Permutation f _ _ H). Qed.

(** The bounds on the selection of one prefix, for a cap of at least 1. *)
Lemma matched_pairs_length image_groups label_set cap prefix :
  1 <= cap ->
  let matched := matched_pairs image_groups label_set cap prefix in
  Z.of_nat (length matched) <= cap /\
  (cap <= Z.of_nat (length (List.filter (has_label label_set)
                                        (image_groups !!! prefix))) ->
   Z.of_nat (length matched) = cap).
Proof.
  intros Hcap. simpl. rewrite matched_pairs_take by done.
  rewrite length_take, candidates_length.
  rewrite (filter_length_perm _ (sorted_reverse _) (image_groups !!! prefix))
    by apply sorted_perm.
  lia.
Qed.

(** ** What each stage leaves unchanged *)

Lemma unchanged_except_refl P fs : unchanged_except P fs fs.
Proof. by intros q _. Qed.

Lemma unchanged_except_trans P fs1 fs2 fs3 :
  unchanged_except P fs1 fs2 -> unchanged_except P fs2 fs3 ->
  unchanged_except P fs1 fs3.
Proof. intros H1 H2 q Hq. by rewrite H2, H1. Qed.

Lemma unchanged_except_weaken (P Q : path -> Prop) fs fs' :
  (forall q, P q -> Q q) -> unchanged_except P fs fs' ->
  unchanged_except Q fs fs'.
Proof. intros HPQ H q Hq. apply H. auto. Qed.

Lemma for_each_unchanged {A} P (l : list A) (body : A -> M unit) :
  (forall x fs1 fs2, x ∈ l -> body x fs1 = Some (tt, fs2) ->
                     unchanged_except P fs1 fs2) ->
  forall fs fs', for_each l body fs = Some (tt, fs') ->
                 unchanged_except P fs fs'.
Proof.
  induction l as [|x l IH]; intros Hbody fs fs' Hrun.
  - simpl in Hrun. injection Hrun as <-. apply unchanged_except_refl.
  - apply for_each_cons_Some in Hrun as (fs1 & Hx & Hrun).
    eapply unchanged_except_trans.
    + eapply Hbody; [left|done].
    + eapply IH; [|done]. intros ? ? ? ?. apply Hbody. by right.
Qed.

Lemma makedirs_unchanged P d fs fs' :
  os_makedirs d fs = Some (tt, fs') -> unchanged_except P fs fs'.
Proof. intros H q _. by apply (file_at_makedirs d). Qed.

Lemma write_file_unchanged p f fs fs' :
  write_file p f fs = Some (tt, fs') ->
  unchanged_except (fun q => q = p) fs fs'.
Proof. intros H q Hq. rewrite (file_at_write _ _ _ _ q H). by rewrite decide_False. Qed.

Lemma move_unchanged src dst fs fs' :
  shutil_move src dst fs = Some (tt, fs') ->
  unchanged_except (fun q => q = src \/ q = dst) fs fs'.
Proof.
  intros H q Hq. destruct (file_at_move _ _ _ _ q H) as [_ ->].
  rewrite !decide_False; [done|tauto..].
Qed.

Lemma copytree_unchanged src dst fs fs' :
  shutil_copytree src dst fs = Some (tt, fs') ->
  unchanged_except (fun q => os_path_dirname q = dst) fs fs'.
Proof.
  unfold shutil_copytree. destruct (fs !! src) as [src_dir|]; [|done].
  destruct (decide (src = dst)).
  - destruct (decide (src_dir = ∅)); [|done]. intros [= <-].
    apply unchanged_except_refl.
  - intros [= <-] q Hq. unfold file_at.
    destruct (os_path_basename q); simpl; [|done].
    by rewrite lookup_insert_ne.
Qed.

(** What a successful copy leaves in the destination. *)
Lemma copytree_file_at src dst fs fs' name :
  src <> dst ->
  shutil_copytree src dst fs = Some (tt, fs') ->
  file_at fs' (os_path_join dst name) =
  match file_at fs (os_path_join src name) with
  | Some f => Some f
  | None => file_at fs (os_path_join dst name)
  end.
Proof.
  intros Hne. unfold shutil_copytree.
  destruct (fs !! src) as [src_dir|] eqn:Hsrc; [|done].
  rewrite decide_False by done. intros [= <-].
  rewrite !file_at_join, lookup_insert_eq, Hsrc. simpl.
  rewrite lookup_union. destruct (src_dir !! name) as [f|] eqn:Hf; simpl.
  - by destruct (default ∅ (fs !! dst) !! name).
  - destruct (fs !! dst) as [dst_dir|]; simpl.
    + by destruct (dst_dir !! name).
    + by rewrite lookup_empty.
Qed.

Lemma remap_all_labels_unchanged ord label_dir output_dir id_mapping fs fs' :
  remap_all_labels ord label_dir output_dir id_mapping fs = Some (tt, fs') ->
  unchanged_except nii_path fs fs'.
Proof.
  unfold remap_all_labels. intros H.
  apply bind_Some in H as ([] & fs1 & Hmk & H).
  apply bind_Some in H as (names & fs2 & (dir & _ & _ & ->)%os_listdir_Some & H).
  eapply unchanged_except_trans; [by eapply makedirs_unchanged|].
  eapply for_each_unchanged; [|exact H].
  intros fname fsa fsb _. simpl.
  destruct (Str.endswith fname ".nii.gz") eqn:Hsuf.
  - intros (? & ? & _ & _ & Hfs)%remap_labels_in_nii_run q Hq.
    rewrite Hfs, decide_False; [done|]. intros ->. apply Hq.
    by exists output_dir, fname.
  - intros [_ ->]%ret_Some. apply unchanged_except_refl.
Qed.

(** The names of a selected pair: an image of the listing with the suffix,
    and a label name with the suffix. *)
Lemma matched_pairs_names prefixes names label_set cap prefix img lbl :
  (img, lbl) ∈ matched_pairs (groups_of prefixes names) label_set cap prefix ->
  img ∈ names /\ in_group prefixes prefix img = true /\
  has_label label_set img = true /\
  lbl = strip_image_id img +:+ ".nii.gz".
Proof.
  unfold matched_pairs.
  intros [[]%elem_of_nil|(fname & Hin & Hl & [= -> ->])]%match_loop_elem.
  unfold sorted_reverse in Hin. rewrite sorted_perm in Hin.
  unfold groups_of in Hin. rewrite groups_lookup_empty in Hin.
  apply filter_elem_of in Hin as [? ?]. done.
Qed.

Lemma in_group_endswith prefixes prefix fname :
  in_group prefixes prefix fname = true -> Str.endswith fname ".nii.gz" = true.
Proof. unfold in_group. by intros [? _]%andb_true_iff. Qed.

Lemma move_matched_pairs_unchanged ord images_dir labels_dir output_images_dir
    output_labels_dir prefixes cap fs fs' :
  move_matched_pairs ord images_dir labels_dir output_images_dir
                     output_labels_dir prefixes cap fs = Some (tt, fs') ->
  unchanged_except nii_path fs fs'.
Proof.
  rewrite move_matched_pairs_unfold. intros H.
  apply bind_Some in H as ([] & fs1 & Hmk1 & H).
  apply bind_Some in H as ([] & fs2 & Hmk2 & H).
  apply bind_Some in H as (sel & fs3 & Hsel & H).
  apply selected_pairs_Some in Hsel as (idir & ldir & _ & _ & -> & ->).
  eapply unchanged_except_trans; [by eapply makedirs_unchanged|].
  eapply unchanged_except_trans; [by eapply makedirs_unchanged|].
  eapply for_each_unchanged; [|exact H].
  intros matched fsa fsb (prefix & -> & _)%list_elem_of_fmap Hmv.
  unfold move_pairs in Hmv. eapply for_each_unchanged; [|exact Hmv].
  intros [img lbl] fsc fsd (_ & Hg%in_group_endswith & _ & ->)%matched_pairs_names Hpair.
  apply bind_Some in Hpair as ([] & fse & Hm1%move_unchanged & Hm2%move_unchanged).
  eapply unchanged_except_trans.
  - eapply unchanged_except_weaken; [|exact Hm1].
    intros q [-> | ->]; eexists _, _; eauto.
  - eapply unchanged_except_weaken; [|exact Hm2].
    intros q [-> | ->]; eexists _, _; eauto using endswith_app.
Qed.

(** ** Label Remapper on the file system: C9 *)

Lemma remap_label_ids_from_json_run json_path save_json_path num_training
    fs id_mapping fs' :
  remap_label_ids_from_json json_path save_json_path num_training fs
    = Some (id_mapping, fs') ->
  exists data labels original_labels,
    file_at fs json_path = Some (JsonFile data) /\
    json_getitem data "labels" = Some labels /\
    json_label_items labels = Some original_labels /\
    id_mapping = new_id_map original_labels /\
    forall q, file_at fs' q =
      if decide (q = save_json_path)
      then Some (JsonFile (JObj (output_dict original_labels num_training)))
      else file_at fs q.
Proof.
  unfold remap_label_ids_from_json, json_dump. intros H.
  apply bind_Some in H as (data & fs1 & [Hdata ->]%json_load_Some & H).
  apply bind_Some in H as (t & fs2 & [Ht ->]%lift_Some & H).
  apply bind_Some in H as ([] & fs3 & Hw & [-> ->]%ret_Some).
  destruct (json_getitem data "labels") as [labels|] eqn:Hl; [|done].
  simpl in Ht. exists data, labels, t. split_and!; try done.
  intros q. by apply file_at_write.
Qed.

(** C9: the descriptor that the Label Remapper writes has [numTraining]
    equal to the placeholder plus one. *)
Theorem remap_label_ids_from_json_numTraining json_path save_json_path
    num_training fs id_mapping fs' :
  remap_label_ids_from_json json_path save_json_path num_training fs
    = Some (id_mapping, fs') ->
  exists descriptor,
    file_at fs' save_json_path = Some (JsonFile descriptor) /\
    json_getitem descriptor "numTraining" = Some (JInt (num_training + 1)).
Proof.
  intros (data & labels & t & _ & _ & _ & _ & Hfs)%remap_label_ids_from_json_run.
  eexists. split; [rewrite Hfs; by rewrite decide_True|]. reflexivity.
Qed.

(** ** Metadata Finalizer *)

Lemma count_nii_perm names1 names2 :
  names1 ≡ₚ names2 -> count_nii names1 = count_nii names2.
Proof. intros H. unfold count_nii. by rewrite (filter_length_perm _ _ _ H). Qed.

Lemma update_num_training_run ord output_labelsTr_dir output_labelsVal_dir
    output_json_path fs fs' :
  update_num_training ord output_labelsTr_dir output_labelsVal_dir
                      output_json_path fs = Some (tt, fs') ->
  exists dir_tr dir_val fields,
    fs !! output_labelsTr_dir = Some dir_tr /\
    fs !! output_labelsVal_dir = Some dir_val /\
    file_at fs output_json_path = Some (JsonFile (JObj fields)) /\
    forall q, file_at fs' q =
      if decide (q = output_json_path)
      then Some (JsonFile (JObj (Dict.set "numTraining"
             (JInt (count_nii (ord (map_to_list dir_tr).*1)
                    - count_nii (ord (map_to_list dir_val).*1))) fields)))
      else file_at fs q.
Proof.
  unfold update_num_training, json_dump. intros H.
  apply bind_Some in H
    as (names & fs1 & (dir_tr & Htr & -> & ->)%os_listdir_Some & H).
  apply bind_Some in H
    as (names_val & fs2 & (dir_val & Hval & -> & ->)%os_listdir_Some & H).
  apply bind_Some in H as (dataset & fs3 & [Hd ->]%json_load_Some & H).
  apply bind_Some in H as (dataset' & fs4 & [Hset ->]%lift_Some & H).
  destruct dataset as [| |fields]; try done. injection Hset as <-.
  exists dir_tr, dir_val, fields. split_and!; try done.
  intros q. by apply file_at_write.
Qed.

(** ** The pipeline *)

Lemma main_run ord input_root output_root fs fs' :
  main ord input_root output_root fs = Some (tt, fs') ->
  exists fs0 id_mapping fs1 fs2 fs3 fs4 fs5,
    os_makedirs (os_path_dirname (os_path_join output_root "dataset.json")) fs
      = Some (tt, fs0) /\
    remap_label_ids_from_json (os_path_join input_root "dataset.json")
      (os_path_join output_root "dataset.json") 0 fs0 = Some (id_mapping, fs1) /\
    os_makedirs (os_path_join output_root "labelsTr") fs1 = Some (tt, fs2) /\
    remap_all_labels ord (os_path_join input_root "labelsTr")
      (os_path_join output_root "labelsTr") id_mapping fs2 = Some (tt, fs3) /\
    shutil_copytree (os_path_join input_root "imagesTr")
      (os_path_join output_root "imagesTr") fs3 = Some (tt, fs4) /\
    move_matched_pairs ord (os_path_join output_root "imagesTr")
      (os_path_join output_root "labelsTr") (os_path_join output_root "imagesVal")
      (os_path_join output_root "labelsVal") prefixes 17 fs4 = Some (tt, fs5) /\
    update_num_training ord (os_path_join output_root "labelsTr")
      (os_path_join output_root "labelsVal")
      (os_path_join output_root "dataset.json") fs5 = Some (tt, fs').
Proof.
  unfold main. intros H.
  apply bind_Some in H as ([] & fs0 & H0 & H).
  apply bind_Some in H as (id_mapping & fs1 & H1 & H).
  apply bind_Some in H as ([] & fs2 & H2 & H).
  apply bind_Some in H as ([] & fs3 & H3 & H).
  apply bind_Some in H as ([] & fs4 & H4 & H).
  apply bind_Some in H as ([] & fs5 & H5 & H).
  eauto 15.
Qed.

Lemma descriptor_not_nii d : ~ nii_path (os_path_join d "dataset.json").
Proof. intros (d' & name & [_ <-]%join_inj & Hsuf). done. Qed.

(** Between the Remapper and the Finalizer nothing touches a path that is
    neither a [.nii.gz] file nor in the directory that receives the images. *)
Lemma main_middle_unchanged ord input_root output_root id_mapping fs1 fs2 fs3
    fs4 fs5 :
  os_makedirs (os_path_join output_root "labelsTr") fs1 = Some (tt, fs2) ->
  remap_all_labels ord (os_path_join input_root "labelsTr")
    (os_path_join output_root "labelsTr") id_mapping fs2 = Some (tt, fs3) ->
  shutil_copytree (os_path_join input_root "imagesTr")
    (os_path_join output_root "imagesTr") fs3 = Some (tt, fs4) ->
  move_matched_pairs ord (os_path_join output_root "imagesTr")
    (os_path_join output_root "labelsTr") (os_path_join output_root "imagesVal")
    (os_path_join output_root "labelsVal") prefixes 17 fs4 = Some (tt, fs5) ->
  unchanged_except
    (fun q => nii_path q \/
              os_path_dirname q = os_path_join output_root "imagesTr")
    fs1 fs5.
Proof.
  intros H2 H3 H4 H5.
  eapply unchanged_except_trans; [by eapply makedirs_unchanged|].
  eapply unchanged_except_trans.
  { eapply unchanged_except_weaken; [|by eapply remap_all_labels_unchanged].
    auto. }
  eapply unchanged_except_trans.
  { eapply unchanged_except_weaken; [|by eapply copytree_unchanged]. auto. }
  eapply unchanged_except_weaken; [|by eapply move_matched_pairs_unchanged].
  auto.
Qed.

(** C8: in a completed run, the final descriptor is the one the Label
    Remapper wrote with [numTraining] set anew: the other fields, [labels],
    [numTest] (51), [file_ending] and [channel_names], are the Remapper's. *)
Theorem main_descriptor ord input_root output_root fs fs' :
  main ord input_root output_root fs = Some (tt, fs') ->
  exists original_labels fs1 num_train written final,
    (os_makedirs (os_path_dirname (os_path_join output_root "dataset.json")) ;;
     remap_label_ids_from_json (os_path_join input_root "dataset.json")
       (os_path_join output_root "dataset.json") 0) fs
      = Some (new_id_map original_labels, fs1) /\
    written = output_dict original_labels 0 /\
    file_at fs1 (os_path_join output_root "dataset.json")
      = Some (JsonFile (JObj written)) /\
    file_at fs' (os_path_join output_root "dataset.json")
      = Some (JsonFile (JObj final)) /\
    final = Dict.set "numTraining" (JInt num_train) written /\
    final.*1 = written.*1 /\
    (forall key, key <> "numTraining" ->
                 Dict.get key final = Dict.get key written) /\
    Dict.get "numTest" final = Some (JInt 51).
Proof.
  intros (fs0 & id_mapping & fs1 & fs2 & fs3 & fs4 & fs5 & H0 & H1 & H2 & H3
          & H4 & H5 & H6)%main_run.
  pose proof H1 as (data & labels & t & _ & _ & _ & -> & Hfs1)%
    remap_label_ids_from_json_run.
  pose proof (main_middle_unchanged _ _ _ _ _ _ _ _ _ H2 H3 H4 H5) as Hmid.
  apply update_num_training_run in H6
    as (dir_tr & dir_val & fields & _ & _ & Hfields & Hfs').
  assert (file_at fs5 (os_path_join output_root "dataset.json")
          = Some (JsonFile (JObj (output_dict t 0)))) as Hd.
  { rewrite Hmid.
    - rewrite Hfs1. by rewrite decide_True.
    - intros [?%descriptor_not_nii|Hdir]; [done|].
      rewrite dirname_join in Hdir. symmetry in Hdir.
      by apply join_ne_dir in Hdir. }
  rewrite Hd in Hfields. injection Hfields as <-.
  eexists t, fs1, _, _, _. split.
  { unfold bind. by rewrite H0. }
  split; [reflexivity|]. split.
  { rewrite Hfs1. by rewrite decide_True. }
  split.
  { rewrite Hfs'. by rewrite decide_True. }
  split; [reflexivity|]. split; [reflexivity|]. split; [|reflexivity].
  intros key Hkey. rewrite dict_get_set. by rewrite decide_False.
Qed.

(** The count that the Finalizer stores: the label files left in the
    training directory minus the label files of the validation directory. *)
Lemma main_numTraining ord input_root output_root fs fs' :
  (forall l, ord l ≡ₚ l) ->
  main ord input_root output_root fs = Some (tt, fs') ->
  exists dir_tr dir_val final,
    fs' !! os_path_join output_root "labelsTr" = Some dir_tr /\
    fs' !! os_path_join output_root "labelsVal" = Some dir_val /\
    file_at fs' (os_path_join output_root "dataset.json")
      = Some (JsonFile (JObj final)) /\
    Dict.get "numTraining" final
      = Some (JInt (count_nii (map_to_list dir_tr).*1
                    - count_nii (map_to_list dir_val).*1)).
Proof.
  intros Hord (fs0 & id_mapping & fs1 & fs2 & fs3 & fs4 & fs5 & _ & _ & _ & _
               & _ & _ & H6)%main_run.
  pose proof H6 as (dir_tr & dir_val & fields & Htr & Hval & _ & Hfs')%
    update_num_training_run.
  assert (forall x, fs' !! os_path_join output_root x
                    = fs5 !! os_path_join output_root x) as Hdirs.
  { intros x. unfold update_num_training, json_dump in H6.
    apply bind_Some in H6 as (? & ? & (? & ? & ? & ->)%os_listdir_Some & H6).
    apply bind_Some in H6 as (? & ? & (? & ? & ? & ->)%os_listdir_Some & H6).
    apply bind_Some in H6 as (? & ? & [? ->]%json_load_Some & H6).
    apply bind_Some in H6 as (? & ? & [? ->]%lift_Some & H6).
    unfold write_file in H6. rewrite basename_join, dirname_join in H6.
    destruct (fs5 !! output_root); [|done]. injection H6 as <-.
    apply lookup_insert_ne. intros Heq. symmetry in Heq.
    by apply join_ne_dir in Heq. }
  exists dir_tr, dir_val. eexists. rewrite !Hdirs. split; [done|].
  split; [done|]. split.
  { rewrite Hfs'. by rewrite decide_True. }
  rewrite dict_get_set, decide_True by done.
  by rewrite (count_nii_perm _ _ (Hord _)), (count_nii_perm _ _ (Hord _)).
Qed.

(** C1, on the sample: one pair goes to validation and one label file stays
    in the training directory, and the final [numTraining] is 0. *)
Lemma main_numTraining_sample :
  let fs' := final_fs (main (fun l => l) ["in"] ["out"] sample_fs) in
  main (fun l => l) ["in"] ["out"] sample_fs = Some (tt, fs') /\
  (fun dir : gmap string File => (map_to_list dir).*1)
    <$> fs' !! ["out"; "labelsTr"] = Some ["ToothFairy3S_003.nii.gz"] /\
  (fun dir : gmap string File => (map_to_list dir).*1)
    <$> fs' !! ["out"; "labelsVal"] = Some ["ToothFairy3F_001.nii.gz"] /\
  exists final,
    file_at fs' ["out"; "dataset.json"] = Some (JsonFile (JObj final)) /\
    Dict.get "numTraining" final = Some (JInt 0).
Proof.
  intros fs'. split; [apply run_final; vm_compute; reflexivity|].
  split; [vm_compute; reflexivity|]. split; [vm_compute; reflexivity|].
  eexists. split; vm_compute; reflexivity.
Qed.

Lemma groups_of_skip prefixes name l1 l2 :
  Str.endswith name ".nii.gz" = false ->
  groups_of prefixes (l1 ++ name :: l2) = groups_of prefixes (l1 ++ l2).
Proof.
  intros H. unfold groups_of. rewrite !foldl_app. simpl.
  unfold group_step at 2. by rewrite H.
Qed.

Lemma filter_skip {A} (f : A -> bool) x l1 l2 :
  f x = false -> List.filter f (l1 ++ x :: l2) = List.filter f (l1 ++ l2).
Proof. intros H. rewrite !List.filter_app. simpl. by rewrite H. Qed.

Lemma not_nii_path (q : path) name :
  os_path_basename q = Some name -> Str.endswith name ".nii.gz" = false ->
  ~ nii_path q.
Proof.
  intros Hname Hsuf (d & n & -> & Hn).
  rewrite basename_join in Hname. injection Hname as ->. congruence.
Qed.

(** C10, amended: a file whose name does not end in [.nii.gz] is left out of
    the groups, of the label set and of the counts, and a completed run
    leaves it as it was at every path but two.  In the training-image
    output directory the copy puts the file of that name of the input
    image directory, when there is one, in its place, and the splitter does
    not move it; the descriptor [dataset.json] of the output root is the
    other path, and the run writes it (it is also that descriptor which
    the copy takes when the output root is the input image directory). *)
Theorem main_ignores_other_files ord input_root output_root fs fs' q name :
  main ord input_root output_root fs = Some (tt, fs') ->
  os_path_basename q = Some name ->
  Str.endswith name ".nii.gz" = false ->
  q <> os_path_join output_root "dataset.json" ->
  os_path_join (os_path_join input_root "imagesTr") name
    <> os_path_join output_root "dataset.json" ->
  file_at fs' q =
    (if decide (os_path_dirname q = os_path_join output_root "imagesTr")
     then match file_at fs (os_path_join (os_path_join input_root "imagesTr")
                                         name) with
          | Some f => Some f
          | None => file_at fs q
          end
     else file_at fs q) /\
  (forall pfxs l1 l2,
      groups_of pfxs (l1 ++ name :: l2) = groups_of pfxs (l1 ++ l2)) /\
  (forall l1 l2, label_set_of (l1 ++ name :: l2) = label_set_of (l1 ++ l2)) /\
  (forall l1 l2, count_nii (l1 ++ name :: l2) = count_nii (l1 ++ l2)).
Proof.
  intros Hrun Hname Hsuf Hq Hsrc. split; [|split; [|split]].
  - apply main_run in Hrun
      as (fs0 & id_mapping & fs1 & fs2 & fs3 & fs4 & fs5 & H0 & H1 & H2 & H3
          & H4 & H5 & H6).
    apply remap_label_ids_from_json_run in H1
      as (data & labels & t & _ & _ & _ & _ & Hfs1).
    assert (forall p, ~ nii_path p -> p <> os_path_join output_root "dataset.json" ->
                      file_at fs3 p = file_at fs p) as Hfs3.
    { intros p Hp Hne.
      rewrite (remap_all_labels_unchanged _ _ _ _ _ _ H3) by done.
      rewrite (file_at_makedirs _ _ _ _ H2), Hfs1, decide_False by done.
      by apply (file_at_makedirs _ _ _ p) in H0. }
    assert (~ nii_path q) as Hnii by by eapply not_nii_path.
    apply update_num_training_run in H6 as (? & ? & ? & _ & _ & _ & Hfs').
    rewrite Hfs', decide_False by done.
    rewrite (move_matched_pairs_unchanged _ _ _ _ _ _ _ _ _ H5) by done.
    destruct (decide (os_path_dirname q = os_path_join output_root "imagesTr"))
      as [Hdir|Hdir].
    + pose proof (path_split q name Hname) as Hsplit. rewrite Hdir in Hsplit.
      destruct (decide (os_path_join input_root "imagesTr"
                        = os_path_join output_root "imagesTr")) as [Heq|Hne].
      * assert (fs4 = fs3) as ->.
        { unfold shutil_copytree in H4. rewrite Heq in H4.
          destruct (fs3 !! os_path_join output_root "imagesTr"); [|done].
          rewrite decide_True in H4 by done.
          destruct (decide (_ = ∅)); [|done]. by injection H4. }
        rewrite Heq, <-Hsplit, Hfs3 by done. by destruct (file_at fs q).
      * rewrite Hsplit at 1.
        rewrite (copytree_file_at _ _ _ _ name Hne H4), <-Hsplit.
        rewrite !Hfs3; [done|done|done| |done].
        eapply not_nii_path; [apply basename_join|done].
    + rewrite (copytree_unchanged _ _ _ _ H4) by done. by apply Hfs3.
  - intros. by apply groups_of_skip.
  - intros. unfold label_set_of. by rewrite filter_skip.
  - intros. unfold count_nii. by rewrite filter_skip.
Qed.

(** C10, as stated, does not hold: the copy of the image directory replaces
    the text file that the training-image output directory held. *)
Lemma main_copy_overwrites :
  let fs' := final_fs (main (fun l => l) ["in"] ["out"] sample_fs) in
  main (fun l => l) ["in"] ["out"] sample_fs = Some (tt, fs') /\
  Str.endswith "notes.txt" ".nii.gz" = false /\
  file_at sample_fs ["out"; "imagesTr"; "notes.txt"]
    = Some (OtherFile "old notes") /\
  file_at fs' ["out"; "imagesTr"; "notes.txt"] = Some (OtherFile "new notes").
Proof.
  intros fs'. split; [apply run_final; vm_compute; reflexivity|].
  split; [reflexivity|]. split; vm_compute; reflexivity.
Qed.

(** [main] is the pipeline up to the split followed by the Finalizer. *)
Lemma main_stages ord input_root output_root fs :
  main ord input_root output_root fs =
  (main_before_finalizer ord input_root output_root ;;
   update_num_training ord (os_path_join output_root "labelsTr")
     (os_path_join output_root "labelsVal")
     (os_path_join output_root "dataset.json")) fs.
Proof.
  unfold main, main_before_finalizer, bind.
  repeat match goal with
         | |- context [match ?m ?f with _ => _ end] =>
             lazymatch type of f with
             | FS => destruct (m f) as [[? ?]|]; try reflexivity
             end
         end.
Qed.

(** In the pipeline the Remapper is called with the placeholder 0: in a
    completed run, the file system that the stages before the Finalizer
    leave, and on which the Finalizer then runs, has a descriptor with
    [numTraining] 1. *)
Lemma main_intermediate_numTraining ord input_root output_root fs fs' :
  main ord input_root output_root fs = Some (tt, fs') ->
  exists fs5 descriptor,
    main_before_finalizer ord input_root output_root fs = Some (tt, fs5) /\
    update_num_training ord (os_path_join output_root "labelsTr")
      (os_path_join output_root "labelsVal")
      (os_path_join output_root "dataset.json") fs5 = Some (tt, fs') /\
    file_at fs5 (os_path_join output_root "dataset.json")
      = Some (JsonFile descriptor) /\
    json_getitem descriptor "numTraining" = Some (JInt 1).
Proof.
  intros Hrun. rewrite main_stages in Hrun.
  apply bind_Some in Hrun as ([] & fs5 & Hbefore & Hfin).
  pose proof Hbefore as Hstages. unfold main_before_finalizer in Hstages.
  apply bind_Some in Hstages as ([] & fs0 & H0 & Hstages).
  apply bind_Some in Hstages as (id_mapping & fs1 & H1 & Hstages).
  apply bind_Some in Hstages as ([] & fs2 & H2 & Hstages).
  apply bind_Some in Hstages as ([] & fs3 & H3 & Hstages).
  apply bind_Some in Hstages as ([] & fs4 & H4 & H5).
  apply remap_label_ids_from_json_run in H1
    as (data & labels & t & _ & _ & _ & _ & Hfs1).
  pose proof (main_middle_unchanged _ _ _ _ _ _ _ _ _ H2 H3 H4 H5) as Hmid.
  eexists fs5, _. split; [done|]. split; [done|]. split.
  - rewrite Hmid.
    + rewrite Hfs1. by rewrite decide_True.
    + intros [?%descriptor_not_nii|Hdir]; [done|].
      rewrite dirname_join in Hdir. symmetry in Hdir.
      by apply join_ne_dir in Hdir.
  - reflexivity.
Qed.

(** ** Runs on the sample file system *)

Lemma remap_label_ids_from_json_numTraining_witness :
  let fs := <[ ["out"] := ∅ ]> sample_fs in
  let run := remap_label_ids_from_json ["in"; "dataset.json"]
                                       ["out"; "dataset.json"] 0 fs in
  run = Some ([(0, 0); (2, 1); (5, 2)], final_fs run) /\
  exists descriptor,
    file_at (final_fs run) ["out"; "dataset.json"] = Some (JsonFile descriptor) /\
    json_getitem descriptor "numTraining" = Some (JInt (0 + 1)).
Proof.
  intros fs run.
  assert (run = Some ([(0, 0); (2, 1); (5, 2)], final_fs run)) as Hrun.
  { assert (fst <$> run = Some [(0, 0); (2, 1); (5, 2)]) as H
      by (vm_compute; reflexivity).
    destruct run as [[m fs1]|]; [|discriminate H].
    simpl in H. injection H as ->. reflexivity. }
  split; [exact Hrun|].
  exact (remap_label_ids_from_json_numTraining _ _ _ _ _ _ Hrun).
Defined.

Lemma main_sample_run :
  main (fun l => l) ["in"] ["out"] sample_fs
  = Some (tt, final_fs (main (fun l => l) ["in"] ["out"] sample_fs)).
Proof. apply run_final. vm_compute. reflexivity. Qed.

Lemma main_descriptor_witness :
  let fs' := final_fs (main (fun l => l) ["in"] ["out"] sample_fs) in
  main (fun l => l) ["in"] ["out"] sample_fs = Some (tt, fs') /\
  exists original_labels fs1 num_train written final,
    (os_makedirs (os_path_dirname (os_path_join ["out"] "dataset.json")) ;;
     remap_label_ids_from_json (os_path_join ["in"] "dataset.json")
       (os_path_join ["out"] "dataset.json") 0) sample_fs
      = Some (new_id_map original_labels, fs1) /\
    written = output_dict original_labels 0 /\
    file_at fs1 (os_path_join ["out"] "dataset.json")
      = Some (JsonFile (JObj written)) /\
    file_at fs' (os_path_join ["out"] "dataset.json")
      = Some (JsonFile (JObj final)) /\
    final = Dict.set "numTraining" (JInt num_train) written /\
    final.*1 = written.*1 /\
    (forall key, key <> "numTraining" ->
                 Dict.get key final = Dict.get key written) /\
    Dict.get "numTest" final = Some (JInt 51).
Proof.
  intros fs'. split; [exact main_sample_run|].
  exact (main_descriptor _ _ _ _ _ main_sample_run).
Defined.

Lemma main_ignores_other_files_witness :
  let fs' := final_fs (main (fun l => l) ["in"] ["out"] sample_fs) in
  let q := ["out"; "imagesTr"; "notes.txt"] in
  main (fun l => l) ["in"] ["out"] sample_fs = Some (tt, fs') /\
  os_path_basename q = Some "notes.txt" /\
  Str.endswith "notes.txt" ".nii.gz" = false /\
  q <> os_path_join ["out"] "dataset.json" /\
  os_path_join (os_path_join ["in"] "imagesTr") "notes.txt"
    <> os_path_join ["out"] "dataset.json" /\
  file_at fs' q =
    (if decide (os_path_dirname q = os_path_join ["out"] "imagesTr")
     then match file_at sample_fs (os_path_join (os_path_join ["in"] "imagesTr")
                                                "notes.txt") with
          | Some f => Some f
          | None => file_at sample_fs q
          end
     else file_at sample_fs q) /\
  (forall pfxs l1 l2,
      groups_of pfxs (l1 ++ "notes.txt" :: l2) = groups_of pfxs (l1 ++ l2)) /\
  (forall l1 l2,
      label_set_of (l1 ++ "notes.txt" :: l2) = label_set_of (l1 ++ l2)) /\
  (forall l1 l2, count_nii (l1 ++ "notes.txt" :: l2) = count_nii (l1 ++ l2)).
Proof.
  intros fs' q.
  assert (q <> os_path_join ["out"] "dataset.json") as Hq
    by (vm_compute; discriminate).
  assert (os_path_join (os_path_join ["in"] "imagesTr") "notes.txt"
          <> os_path_join ["out"] "dataset.json") as Hsrc
    by (vm_compute; discriminate).
  split; [exact main_sample_run|]. split; [reflexivity|].
  split; [reflexivity|]. split; [exact Hq|]. split; [exact Hsrc|].
  exact (main_ignores_other_files _ _ _ _ _ q "notes.txt" main_sample_run
           eq_refl eq_refl Hq Hsrc).
Defined.

Lemma selected_pairs_deterministic_witness :
  let images_dir := ["in"; "imagesTr"] in
  let labels_dir := ["in"; "labelsTr"] in
  let output_images_dir := ["out"; "imagesVal"] in
  let output_labels_dir := ["out"; "labelsVal"] in
  (forall l : list string, (fun l => l) l ≡ₚ l) /\
  (forall l : list string, rev l ≡ₚ l) /\
  dir_names sample_fs images_dir = dir_names sample_fs images_dir /\
  dir_names sample_fs labels_dir = dir_names sample_fs labels_dir /\
  fst <$> selected_pairs (fun l => l) images_dir labels_dir prefixes 17 sample_fs =
  fst <$> selected_pairs (@rev string) images_dir labels_dir prefixes 17 sample_fs /\
  (sample_fs = sample_fs ->
   move_matched_pairs (fun l => l) images_dir labels_dir output_images_dir
                      output_labels_dir prefixes 17 sample_fs =
   move_matched_pairs (@rev string) images_dir labels_dir output_images_dir
                      output_labels_dir prefixes 17 sample_fs).
Proof.
  intros images_dir labels_dir output_images_dir output_labels_dir.
  assert (forall l : list string, (fun l => l) l ≡ₚ l) as H1 by reflexivity.
  assert (forall l : list string, rev l ≡ₚ l) as H2.
  { intros l. symmetry. apply Permutation_rev. }
  split; [exact H1|]. split; [exact H2|]. split; [reflexivity|].
  split; [reflexivity|].
  exact (selected_pairs_deterministic _ _ images_dir labels_dir
           output_images_dir output_labels_dir prefixes 17 sample_fs sample_fs
           H1 H2 eq_refl eq_refl).
Defined.

Lemma main_numTraining_witness :
  let fs' := final_fs (main (fun l => l) ["in"] ["out"] sample_fs) in
  (forall l : list string, (fun l => l) l ≡ₚ l) /\
  main (fun l => l) ["in"] ["out"] sample_fs = Some (tt, fs') /\
  exists dir_tr dir_val final,
    fs' !! os_path_join ["out"] "labelsTr" = Some dir_tr /\
    fs' !! os_path_join ["out"] "labelsVal" = Some dir_val /\
    file_at fs' (os_path_join ["out"] "dataset.json")
      = Some (JsonFile (JObj final)) /\
    Dict.get "numTraining" final
      = Some (JInt (count_nii (map_to_list dir_tr).*1
                    - count_nii (map_to_list dir_val).*1)).
Proof.
  intros fs'.
  assert (forall l : list string, (fun l => l) l ≡ₚ l) as Hord by reflexivity.
  split; [exact Hord|]. split; [exact main_sample_run|].
  exact (main_numTraining _ _ _ _ _ Hord main_sample_run).
Defined.

Lemma main_intermediate_numTraining_witness :
  let ord := fun l : list string => l in
  main ord ["in"] ["out"] sample_fs
    = Some (tt, final_fs (main ord ["in"] ["out"] sample_fs)) /\
  exists fs5 descriptor,
    main_before_finalizer ord ["in"] ["out"] sample_fs = Some (tt, fs5) /\
    update_num_training ord (os_path_join ["out"] "labelsTr")
      (os_path_join ["out"] "labelsVal")
      (os_path_join ["out"] "dataset.json") fs5
      = Some (tt, final_fs (main ord ["in"] ["out"] sample_fs)) /\
    file_at fs5 (os_path_join ["out"] "dataset.json")
      = Some (JsonFile descriptor) /\
    json_getitem descriptor "numTraining" = Some (JInt 1).
Proof.
  intros ord. split; [exact main_sample_run|].
  exact (main_intermediate_numTraining _ _ _ _ _ main_sample_run).
Defined.

(** The ID mapping is an order embedding, with or without repeated original
    IDs: of two original IDs the smaller one has the smaller new ID, and
    two original IDs have the same new ID only when they are the same. *)
Theorem new_id_map_order t old1 old2 new1 new2 :
  Dict.get old1 (new_id_map t) = Some new1 ->
  Dict.get old2 (new_id_map t) = Some new2 ->
  (old1 < old2 <-> new1 < new2) /\ (old1 = old2 <-> new1 = new2).
Proof.
  intros H1 H2.
  assert (old1 < old2 -> new1 < new2) as Hlt
    by apply (new_id_map_increasing _ _ _ _ _ H1 H2).
  assert (old2 < old1 -> new2 < new1) as Hgt
    by apply (new_id_map_increasing _ _ _ _ _ H2 H1).
  assert (old1 = old2 -> new1 = new2) as Heq by (intros ->; congruence).
  split; split; try done.
  - intros ?. destruct (Z.lt_trichotomy old1 old2) as [?|[?|?]]; [done|..].
    + specialize (Heq ltac:(done)). lia.
    + specialize (Hgt ltac:(done)). lia.
  - intros ?. destruct (Z.lt_trichotomy old1 old2) as [?|[?|?]]; [|done|].
    + specialize (Hlt ltac:(done)). lia.
    + specialize (Hgt ltac:(done)). lia.
Qed.

Lemma new_id_map_order_witness :
  Dict.get 2 (new_id_map scenario_table) = Some 1 /\
  Dict.get 5 (new_id_map scenario_table) = Some 2 /\
  (2 < 5 <-> 1 < 2) /\ (2 = 5 <-> 1 = 2).
Proof.
  assert (Dict.get 2 (new_id_map scenario_table) = Some 1) as H1 by reflexivity.
  assert (Dict.get 5 (new_id_map scenario_table) = Some 2) as H2 by reflexivity.
  split; [exact H1|]. split; [exact H2|].
  exact (new_id_map_order scenario_table 2 5 1 2 H1 H2).
Defined.

(** * Further properties *)

(** ** File names *)

Lemma contains_char_app c s1 s2 :
  contains_char c (s1 +:+ s2) = contains_char c s1 || contains_char c s2.
Proof.
  induction s1 as [|c' s1 IH]; [done|].
  change (String c' s1 +:+ s2) with (String c' (s1 +:+ s2)). simpl.
  rewrite IH. by rewrite orb_assoc.
Qed.

Lemma string_app_assoc (s1 s2 s3 : string) :
  (s1 +:+ s2) +:+ s3 = s1 +:+ (s2 +:+ s3).
Proof.
  induction s1 as [|c s1 IH]; [done|].
  change ((String c s1 +:+ s2) +:+ s3) with (String c ((s1 +:+ s2) +:+ s3)).
  by rewrite IH.
Qed.

Lemma remove_go_no_dot s :
  contains_char "." s = false -> Str.remove_go ".nii.gz" 0 s = s.
Proof.
  induction s as [|c s IH]; [done|]. simpl.
  intros [Hc Hs]%orb_false_iff. rewrite IH by done.
  destruct (Ascii.eqb_spec "." c) as [<-|Hne].
  - by rewrite Ascii.eqb_refl in Hc.
  - destruct c as [[] [] [] [] [] [] [] []]; try done.
Qed.

(** Removing the suffix of a name without any other dot gives the name
    back. *)
Lemma remove_suffix s :
  contains_char "." s = false -> Str.remove (s +:+ ".nii.gz") ".nii.gz" = s.
Proof.
  unfold Str.remove. induction s as [|c s IH]; [done|].
  change (String c s +:+ ".nii.gz") with (String c (s +:+ ".nii.gz")).
  intros [Hc Hs]%orb_false_iff.
  assert (Str.remove_go ".nii.gz" 0 (String c (s +:+ ".nii.gz"))
          = String c (Str.remove_go ".nii.gz" 0 (s +:+ ".nii.gz"))) as ->.
  { simpl. destruct c as [[] [] [] [] [] [] [] []]; try done. }
  by rewrite IH.
Qed.

Lemma split_no_sep s :
  contains_char "_" s = false -> Str.split "_" s = [s].
Proof.
  induction s as [|c s IH]; [done|]. simpl.
  intros [Hc Hs]%orb_false_iff. rewrite Hc, IH by done. done.
Qed.

Lemma split_token s rest :
  contains_char "_" s = false ->
  Str.split "_" (s +:+ "_" +:+ rest) = s :: Str.split "_" rest.
Proof.
  induction s as [|c s IH]; [done|].
  change (String c s +:+ "_" +:+ rest) with (String c (s +:+ "_" +:+ rest)).
  simpl. intros [Hc Hs]%orb_false_iff. rewrite Hc, IH by done. done.
Qed.

Lemma split_nonempty s : Str.split "_" s <> [].
Proof.
  destruct s as [|c s]; [done|]. simpl.
  destruct (Ascii.eqb c "_"); [done|]. by destruct (Str.split "_" s).
Qed.

Lemma is_token_spec s :
  is_token s = true ->
  contains_char "_" s = false /\ contains_char "." s = false.
Proof.
  unfold is_token. intros [H1 H2]%andb_true_iff.
  by apply negb_true_iff in H1, H2.
Qed.

Lemma strip_image_id_image a b rest :
  is_token a = true -> is_token b = true ->
  contains_char "." rest = false ->
  strip_image_id (a +:+ "_" +:+ b +:+ "_" +:+ rest +:+ ".nii.gz")
    = a +:+ "_" +:+ b.
Proof.
  intros [Ha Ha']%is_token_spec [Hb Hb']%is_token_spec Hrest.
  unfold strip_image_id.
  replace (a +:+ "_" +:+ b +:+ "_" +:+ rest +:+ ".nii.gz")
    with ((a +:+ "_" +:+ b +:+ "_" +:+ rest) +:+ ".nii.gz").
  2:{ by rewrite !string_app_assoc. }
  rewrite remove_suffix.
  2:{ rewrite !contains_char_app, Ha', Hb', Hrest. done. }
  rewrite split_token, split_token by done.
  simpl. pose proof (split_nonempty rest).
  by destruct (Str.split "_" rest).
Qed.

Lemma strip_image_id_label a b :
  is_token a = true -> is_token b = true ->
  strip_image_id (a +:+ "_" +:+ b +:+ ".nii.gz") = a +:+ "_" +:+ b.
Proof.
  intros [Ha Ha']%is_token_spec [Hb Hb']%is_token_spec.
  unfold strip_image_id.
  replace (a +:+ "_" +:+ b +:+ ".nii.gz")
    with ((a +:+ "_" +:+ b) +:+ ".nii.gz").
  2:{ by rewrite !string_app_assoc. }
  rewrite remove_suffix.
  2:{ rewrite !contains_char_app, Ha', Hb'. done. }
  rewrite split_token, split_no_sep by done. done.
Qed.

(** The case identifier of an image name [<a>_<b>_<rest>.nii.gz] and of a
    label name [<a>_<b>.nii.gz] is [<a>_<b>], for tokens [a] and [b] and a
    [rest] without a dot. *)
Theorem strip_image_id_case a b rest :
  is_token a = true -> is_token b = true ->
  contains_char "." rest = false ->
  strip_image_id (a +:+ "_" +:+ b +:+ "_" +:+ rest +:+ ".nii.gz")
    = a +:+ "_" +:+ b /\
  strip_image_id (a +:+ "_" +:+ b +:+ ".nii.gz") = a +:+ "_" +:+ b.
Proof.
  intros Ha Hb Hrest. split.
  - by apply strip_image_id_image.
  - by apply strip_image_id_label.
Qed.

Lemma label_set_of_elem lnames x :
  x ∈ label_set_of lnames <->
  exists lname, lname ∈ lnames /\ Str.endswith lname ".nii.gz" = true /\
                Str.remove lname ".nii.gz" = x.
Proof.
  unfold label_set_of. rewrite elem_of_list_to_set, list_elem_of_In, in_map_iff.
  split.
  - intros (lname & <- & [Hin Hsuf]%filter_In). exists lname.
    by rewrite list_elem_of_In.
  - intros (lname & Hin%list_elem_of_In & Hsuf & <-). exists lname.
    by rewrite filter_In.
Qed.

Lemma has_label_case lnames a b rest :
  is_token a = true -> is_token b = true ->
  contains_char "." rest = false ->
  (a +:+ "_" +:+ b +:+ ".nii.gz") ∈ lnames ->
  has_label (label_set_of lnames)
            (a +:+ "_" +:+ b +:+ "_" +:+ rest +:+ ".nii.gz") = true.
Proof.
  intros Ha Hb Hrest Hin. unfold has_label.
  rewrite (strip_image_id_image a b rest Ha Hb Hrest).
  apply bool_decide_eq_true_2, label_set_of_elem.
  exists (a +:+ "_" +:+ b +:+ ".nii.gz"). split; [done|]. split.
  - rewrite <-string_app_assoc, <-string_app_assoc.
    rewrite (string_app_assoc a). apply endswith_app.
  - apply is_token_spec in Ha as [_ Ha], Hb as [_ Hb].
    replace (a +:+ "_" +:+ b +:+ ".nii.gz")
      with ((a +:+ "_" +:+ b) +:+ ".nii.gz") by by rewrite !string_app_assoc.
    apply remove_suffix. by rewrite !contains_char_app, Ha, Hb.
Qed.

(** The selection loop pairs an image [<a>_<b>_<rest>.nii.gz] with the
    label file [<a>_<b>.nii.gz]: whenever the loop selects the image, the
    label name it builds for it is that name; and when the label listing
    has that file and the cap, at least 1, is not below the size of the
    group of the image, the loop does select the pair. *)
Theorem image_label_pairing image_groups lnames cap prefix a b rest :
  is_token a = true -> is_token b = true ->
  contains_char "." rest = false ->
  1 <= cap ->
  let image_fname := a +:+ "_" +:+ b +:+ "_" +:+ rest +:+ ".nii.gz" in
  let label_fname := a +:+ "_" +:+ b +:+ ".nii.gz" in
  let matched := matched_pairs image_groups (label_set_of lnames) cap prefix in
  (forall lbl, (image_fname, lbl) ∈ matched -> lbl = label_fname) /\
  (image_fname ∈ image_groups !!! prefix ->
   label_fname ∈ lnames ->
   Z.of_nat (length (image_groups !!! prefix)) <= cap ->
   (image_fname, label_fname) ∈ matched).
Proof.
  intros Ha Hb Hrest Hcap. simpl.
  pose proof (strip_image_id_image a b rest Ha Hb Hrest) as Hid. split.
  - intros lbl Hin. unfold matched_pairs in Hin.
    apply match_loop_elem in Hin as [Hin|(fname & _ & _ & [= <- ->])];
      [by apply elem_of_nil in Hin|].
    rewrite Hid. by rewrite string_app_assoc.
  - intros Hgroup Hlabel Hlen. rewrite matched_pairs_take by done.
    rewrite take_ge.
    2:{ rewrite candidates_length.
        pose proof (filter_length (has_label (label_set_of lnames))
                      (sorted_reverse (image_groups !!! prefix))) as Hf.
        unfold sorted_reverse in Hf |- *. rewrite sorted_length in Hf. lia. }
    unfold candidates. apply list_elem_of_omap.
    exists (a +:+ "_" +:+ b +:+ "_" +:+ rest +:+ ".nii.gz"). split.
    + unfold sorted_reverse. by rewrite sorted_perm.
    + rewrite (has_label_case lnames a b rest) by done.
      rewrite Hid. by rewrite string_app_assoc.
Qed.

(** ** Grouping *)

Lemma in_group_spec prefixes prefix fname :
  in_group prefixes prefix fname = true <->
  Str.endswith fname ".nii.gz" = true /\
  List.find (Str.startswith fname) prefixes = Some prefix.
Proof.
  unfold in_group. rewrite andb_true_iff, bool_decide_eq_true. done.
Qed.

Lemma NoDup_filter {A} (f : A -> bool) (l : list A) :
  NoDup l -> NoDup (List.filter f l).
Proof.
  induction 1 as [|x l Hx Hl IH]; simpl; [constructor|].
  destruct (f x); [|done]. constructor; [|done].
  rewrite filter_elem_of. tauto.
Qed.

(** The groups split the images of the directory: a group holds files of the
    directory that end in [.nii.gz] and start with its prefix, no file is in
    two groups, no file is twice in a group, and every file that ends in
    [.nii.gz] and starts with a prefix of the list is in a group. *)
Theorem collect_image_files_by_prefix_partition ord images_dir prefixes fs
    image_groups fs' :
  (forall l, ord l ≡ₚ l) ->
  collect_image_files_by_prefix ord images_dir prefixes fs
    = Some (image_groups, fs') ->
  fs' = fs /\
  exists dir, fs !! images_dir = Some dir /\
    (forall prefix fname, fname ∈ image_groups !!! prefix ->
       is_Some (dir !! fname) /\ Str.endswith fname ".nii.gz" = true /\
       Str.startswith fname prefix = true /\ prefix ∈ prefixes) /\
    (forall prefix1 prefix2 fname,
       fname ∈ image_groups !!! prefix1 -> fname ∈ image_groups !!! prefix2 ->
       prefix1 = prefix2) /\
    (forall prefix, NoDup (image_groups !!! prefix)) /\
    (forall prefix fname,
       is_Some (dir !! fname) -> Str.endswith fname ".nii.gz" = true ->
       prefix ∈ prefixes -> Str.startswith fname prefix = true ->
       exists prefix', fname ∈ image_groups !!! prefix').
Proof.
  intros Hord (dir & Hdir & -> & ->)%collect_image_files_by_prefix_Some.
  split; [done|]. exists dir. split; [done|].
  assert (forall prefix fname,
    fname ∈ groups_of prefixes (ord (map_to_list dir).*1) !!! prefix <->
    is_Some (dir !! fname) /\ in_group prefixes prefix fname = true) as Hg.
  { intros prefix fname. unfold groups_of.
    rewrite groups_lookup_empty, filter_elem_of, Hord, listing_elem, elem_of_dom.
    done. }
  split_and!.
  - intros prefix fname [Hfile [Hsuf Hfind]%in_group_spec]%Hg.
    apply find_some in Hfind as [Hin%list_elem_of_In Hstart]. done.
  - intros p1 p2 fname [_ [_ H1]%in_group_spec]%Hg [_ [_ H2]%in_group_spec]%Hg.
    congruence.
  - intros prefix. unfold groups_of. rewrite groups_lookup_empty.
    apply NoDup_filter. rewrite Hord. apply NoDup_fst_map_to_list.
  - intros prefix fname Hfile Hsuf Hin Hstart.
    destruct (List.find (Str.startswith fname) prefixes) as [p|] eqn:Hfind.
    + exists p. apply Hg. split; [done|]. by apply in_group_spec.
    + apply list_elem_of_In in Hin.
      pose proof (find_none _ _ Hfind _ Hin) as Hno. simpl in Hno. congruence.
Qed.

(** ** Selection *)

Lemma candidates_fst label_set fnames :
  (candidates label_set fnames).*1 = List.filter (has_label label_set) fnames.
Proof.
  induction fnames as [|fname fnames IH]; [done|].
  rewrite candidates_cons, fmap_app, IH. simpl.
  by destruct (has_label label_set fname).
Qed.

Lemma StronglySorted_filter_bool {A} (R : relation A) (f : A -> bool) l :
  StronglySorted R l -> StronglySorted R (List.filter f l).
Proof.
  induction 1 as [|x l Hl IH Hall]; simpl; [constructor|].
  destruct (f x); [|done]. constructor; [done|].
  rewrite Forall_forall in Hall |- *. intros y [Hy _]%filter_elem_of. auto.
Qed.

Lemma labelled_sorted label_set group :
  StronglySorted (flip String.le)
    (List.filter (has_label label_set) (sorted_reverse group)).
Proof.
  apply StronglySorted_filter_bool, Sorted_StronglySorted.
  - intros x y z ? ?. unfold flip in *. by etrans.
  - apply sorted_reverse_Sorted.
Qed.

(** For a cap of at least 1 the selection of a prefix is made of the
    greatest names among the images of its group that have a label: a
    selected image is in the group and has a label, every image of the group
    with a label that is left out compares below every selected one, and nothing
    is left out when the group has at most [cap] images with a label. *)
Theorem matched_pairs_greatest image_groups label_set cap prefix :
  1 <= cap ->
  let matched := matched_pairs image_groups label_set cap prefix in
  let labelled := List.filter (has_label label_set) (image_groups !!! prefix) in
  (forall img, img ∈ matched.*1 -> img ∈ labelled) /\
  (forall img img', img ∈ matched.*1 -> img' ∈ labelled -> img' ∉ matched.*1 ->
                    String.leb img' img = true) /\
  (Z.of_nat (length labelled) <= cap ->
   forall img', img' ∈ labelled -> img' ∈ matched.*1).
Proof.
  intros Hcap. simpl. rewrite matched_pairs_take by done.
  rewrite fmap_take, candidates_fst.
  set (F := List.filter (has_label label_set)
                        (sorted_reverse (image_groups !!! prefix))).
  assert (forall x, x ∈ F <->
            x ∈ List.filter (has_label label_set) (image_groups !!! prefix))
    as HF.
  { intros x. unfold F. rewrite !filter_elem_of. unfold sorted_reverse.
    by rewrite sorted_perm. }
  split_and!.
  - intros img (i & Hi & _)%elem_of_take. apply HF, list_elem_of_lookup. eauto.
  - intros img img' (i & Hi & Hlt)%elem_of_take Hin' Hout.
    apply HF, list_elem_of_lookup in Hin' as [j Hj].
    destruct (decide (j < Z.to_nat cap)%nat) as [Hj'|Hj'].
    { exfalso. apply Hout, elem_of_take. eauto. }
    apply Is_true_true.
    apply (StronglySorted_lookup (flip String.le) F i j img img');
      [apply labelled_sorted|done..|lia].
  - intros Hlen img' Hin'. rewrite take_ge; [by apply HF|].
    unfold F. rewrite (filter_length_perm _ _ (image_groups !!! prefix)).
    + lia.
    + apply sorted_perm.
Qed.

(** ** A completed run of the splitter *)

Lemma all_moves_elem images_dir labels_dir output_images_dir output_labels_dir
    g s prefixes cap src dst :
  (src, dst) ∈ all_moves images_dir labels_dir output_images_dir
                         output_labels_dir g s prefixes cap <->
  exists img lbl,
    (img, lbl) ∈ all_selected g s prefixes cap /\
    ((src, dst) = (os_path_join images_dir img,
                   os_path_join output_images_dir img) \/
     (src, dst) = (os_path_join labels_dir lbl,
                   os_path_join output_labels_dir lbl)).
Proof.
  unfold all_moves, all_selected. rewrite elem_of_concat. split.
  - intros (l & Hsd & (matched & -> & Hm)%list_elem_of_fmap).
    apply moves_of_elem in Hsd as (img & lbl & Hin & Hsd).
    exists img, lbl. split; [|done]. apply elem_of_concat. eauto.
  - intros (img & lbl & (matched & Hin & Hm)%elem_of_concat & Hsd).
    eexists. split.
    + apply moves_of_elem. eauto.
    + by apply (list_elem_of_fmap_2 (moves_of _ _ _ _)).
Qed.

Lemma all_selected_elem g s prefixes cap img lbl :
  (img, lbl) ∈ all_selected g s prefixes cap <->
  exists prefix, prefix ∈ prefixes /\ (img, lbl) ∈ matched_pairs g s cap prefix.
Proof.
  unfold all_selected. rewrite elem_of_concat. split.
  - intros (l & Hin & (prefix & -> & Hp)%list_elem_of_fmap). eauto.
  - intros (prefix & Hp & Hin). eexists. split; [done|].
    by apply (list_elem_of_fmap_2 (matched_pairs g s cap)).
Qed.

(** What a completed run of the splitter on four distinct directories has
    done, move by move. *)
Lemma move_matched_pairs_run ord images_dir labels_dir output_images_dir
    output_labels_dir prefixes cap fs fs' :
  NoDup [images_dir; labels_dir; output_images_dir; output_labels_dir] ->
  move_matched_pairs ord images_dir labels_dir output_images_dir
                     output_labels_dir prefixes cap fs = Some (tt, fs') ->
  exists idir ldir,
    fs !! images_dir = Some idir /\ fs !! labels_dir = Some ldir /\
    let moves :=
      all_moves images_dir labels_dir output_images_dir output_labels_dir
        (groups_of prefixes (ord (map_to_list idir).*1))
        (label_set_of (ord (map_to_list ldir).*1)) prefixes cap in
    NoDup moves.*1 /\
    (forall src dst, (src, dst) ∈ moves ->
       is_Some (file_at fs src) /\ file_at fs' src = None /\
       file_at fs' dst = file_at fs src) /\
    (forall q, q ∉ moves.*1 -> q ∉ moves.*2 -> file_at fs' q = file_at fs q).
Proof.
  intros (Hil & Hio & Hio' & Hlo & Hlo' & Hoo)%NoDup_four Hrun.
  rewrite move_matched_pairs_unfold in Hrun.
  apply bind_Some in Hrun as ([] & fs1 & Hmk1 & Hrun).
  apply bind_Some in Hrun as ([] & fs2 & Hmk2 & Hrun).
  apply bind_Some in Hrun as (sel & fs3 & Hsel & Hrun).
  apply selected_pairs_Some in Hsel as (idir & ldir & Hi & Hl & -> & ->).
  assert (forall q, file_at fs2 q = file_at fs q) as Hfs2.
  { intros q. by rewrite (file_at_makedirs _ _ _ q Hmk2),
      (file_at_makedirs _ _ _ q Hmk1). }
  rewrite (makedirs_lookup _ _ _ images_dir Hmk2), decide_False,
    (makedirs_lookup _ _ _ images_dir Hmk1), decide_False in Hi by done.
  rewrite (makedirs_lookup _ _ _ labels_dir Hmk2), decide_False,
    (makedirs_lookup _ _ _ labels_dir Hmk1), decide_False in Hl by done.
  exists idir, ldir. split; [done|]. split; [done|].
  rewrite (for_each_ext _ _ _ _ (move_pairs_moves images_dir labels_dir
             output_images_dir output_labels_dir)) in Hrun.
  rewrite <-(for_each_map (moves_of images_dir labels_dir output_images_dir
                                    output_labels_dir)
               _ (fun l => for_each l (fun '(src, dst) => shutil_move src dst)))
    in Hrun.
  rewrite for_each_concat in Hrun.
  fold (all_moves images_dir labels_dir output_images_dir output_labels_dir
          (groups_of prefixes (ord (map_to_list idir).*1))
          (label_set_of (ord (map_to_list ldir).*1)) prefixes cap) in Hrun.
  apply (moves_run
           (fun q => exists n, q = os_path_join images_dir n \/
                               q = os_path_join labels_dir n)
           (fun q => exists n, q = os_path_join output_images_dir n \/
                               q = os_path_join output_labels_dir n))
    in Hrun as (Hnd & Hmoved & Hrest).
  - simpl. split; [done|]. split.
    + intros src dst Hin. rewrite <-!Hfs2. by apply Hmoved.
    + intros q H1 H2. rewrite <-Hfs2. by apply Hrest.
  - intros q [n1 [->| ->]] [n2 [H|H]]; apply join_inj in H as [? _]; congruence.
  - intros src dst (img & lbl & _ & [[= -> ->]|[= -> ->]])%all_moves_elem;
      split; eexists; eauto.
  - intros src dst src' dst'
      (img & lbl & _ & [[= -> ->]|[= -> ->]])%all_moves_elem
      (img' & lbl' & _ & [[= -> ->]|[= -> ->]])%all_moves_elem Heq;
      apply join_inj in Heq as [? ?]; congruence.
Qed.

Lemma all_moves_sources images_dir labels_dir output_images_dir
    output_labels_dir g s prefixes cap :
  (all_moves images_dir labels_dir output_images_dir output_labels_dir g s
             prefixes cap).*1
  = flat_map (fun '(img, lbl) => [os_path_join images_dir img;
                                  os_path_join labels_dir lbl])
             (all_selected g s prefixes cap).
Proof.
  unfold all_moves, all_selected.
  induction (map (matched_pairs g s cap) prefixes) as [|matched sel IH]; [done|].
  simpl. rewrite fmap_app, flat_map_app, IH. f_equal.
  unfold moves_of. clear IH. induction matched as [|[img lbl] matched IH]; [done|].
  simpl. do 2 f_equal. apply IH.
Qed.

Lemma NoDup_flat_map_pair {A B} (f g : A -> B) (l : list A) :
  NoDup (flat_map (fun x => [f x; g x]) l) ->
  NoDup (map f l) /\ NoDup (map g l).
Proof.
  induction l as [|x l IH]; simpl; [by split; constructor|].
  intros [Hf [Hg Hl]%NoDup_cons]%NoDup_cons.
  destruct (IH Hl) as [IHf IHg]. split; constructor; try done.
  - intros (y & Hy & Hin)%list_elem_of_fmap. apply Hf. right.
    rewrite list_elem_of_In, in_flat_map. exists y.
    rewrite <-list_elem_of_In. split; [done|]. rewrite Hy. by left.
  - intros (y & Hy & Hin)%list_elem_of_fmap. apply Hg.
    rewrite list_elem_of_In, in_flat_map. exists y.
    rewrite <-list_elem_of_In. split; [done|]. rewrite Hy. right. by left.
Qed.

(** A run of the splitter that completes on four distinct directories has
    selected no image twice and no label file twice: when two selected
    images have the same case identifier, or a prefix with a selection
    stands twice in the list, the second move of a file raises. *)
Theorem move_matched_pairs_no_repeat ord images_dir labels_dir output_images_dir
    output_labels_dir prefixes cap fs fs' :
  NoDup [images_dir; labels_dir; output_images_dir; output_labels_dir] ->
  move_matched_pairs ord images_dir labels_dir output_images_dir
                     output_labels_dir prefixes cap fs = Some (tt, fs') ->
  exists image_groups label_set,
    collect_image_files_by_prefix ord images_dir prefixes fs
      = Some (image_groups, fs) /\
    collect_label_set ord labels_dir fs = Some (label_set, fs) /\
    NoDup (all_selected image_groups label_set prefixes cap).*1 /\
    NoDup (all_selected image_groups label_set prefixes cap).*2.
Proof.
  intros Hdirs (idir & ldir & Hi & Hl & Hnd & _)%move_matched_pairs_run; [|done].
  eexists _, _. split; [apply collect_image_files_by_prefix_Some; eauto|].
  split; [apply collect_label_set_Some; eauto|].
  rewrite all_moves_sources in Hnd.
  set (sel := all_selected _ _ _ _) in *.
  assert (flat_map (fun '(img, lbl) => [os_path_join images_dir img;
                                        os_path_join labels_dir lbl]) sel
          = flat_map (fun x => [os_path_join images_dir x.1;
                                os_path_join labels_dir x.2]) sel) as Heq.
  { apply flat_map_ext. by intros [? ?]. }
  rewrite Heq in Hnd. apply NoDup_flat_map_pair in Hnd as [H1 H2].
  split.
  - apply (NoDup_fmap_1 (os_path_join images_dir)). by rewrite <-list_fmap_compose.
  - apply (NoDup_fmap_1 (os_path_join labels_dir)). by rewrite <-list_fmap_compose.
Qed.

(** A run of the splitter that completes on four distinct directories
    leaves every path as it was, except the places that the selected pairs
    leave and the places they go to. *)
Theorem move_matched_pairs_rest ord images_dir labels_dir output_images_dir
    output_labels_dir prefixes cap fs fs' :
  NoDup [images_dir; labels_dir; output_images_dir; output_labels_dir] ->
  move_matched_pairs ord images_dir labels_dir output_images_dir
                     output_labels_dir prefixes cap fs = Some (tt, fs') ->
  exists image_groups label_set,
    collect_image_files_by_prefix ord images_dir prefixes fs
      = Some (image_groups, fs) /\
    collect_label_set ord labels_dir fs = Some (label_set, fs) /\
    forall q,
      (forall img lbl,
          (img, lbl) ∈ all_selected image_groups label_set prefixes cap ->
          q <> os_path_join images_dir img /\
          q <> os_path_join labels_dir lbl /\
          q <> os_path_join output_images_dir img /\
          q <> os_path_join output_labels_dir lbl) ->
      file_at fs' q = file_at fs q.
Proof.
  intros Hdirs (idir & ldir & Hi & Hl & _ & _ & Hrest)%move_matched_pairs_run;
    [|done].
  eexists _, _. split; [apply collect_image_files_by_prefix_Some; eauto|].
  split; [apply collect_label_set_Some; eauto|].
  intros q Hq. apply Hrest.
  - intros ([src dst] & -> & (img & lbl & Hin & Hsd)%all_moves_elem)%
      list_elem_of_fmap.
    destruct (Hq img lbl Hin) as (? & ? & ? & ?).
    destruct Hsd as [[= -> ->]|[= -> ->]]; done.
  - intros ([src dst] & -> & (img & lbl & Hin & Hsd)%all_moves_elem)%
      list_elem_of_fmap.
    destruct (Hq img lbl Hin) as (? & ? & ? & ?).
    destruct Hsd as [[= -> ->]|[= -> ->]]; done.
Qed.

Lemma group_NoDup ord prefixes (dir : gmap string File) prefix :
  (forall l, ord l ≡ₚ l) ->
  NoDup (groups_of prefixes (ord (map_to_list dir).*1) !!! prefix).
Proof.
  intros Hord. unfold groups_of. rewrite groups_lookup_empty.
  apply NoDup_filter. rewrite Hord. apply NoDup_fst_map_to_list.
Qed.

Lemma group_elem prefixes names prefix fname :
  fname ∈ groups_of prefixes names !!! prefix <->
  fname ∈ names /\ in_group prefixes prefix fname = true.
Proof. unfold groups_of. by rewrite groups_lookup_empty, filter_elem_of. Qed.

Lemma matched_pairs_NoDup g s cap prefix :
  1 <= cap -> NoDup (g !!! prefix) -> NoDup (matched_pairs g s cap prefix).*1.
Proof.
  intros Hcap Hnd. rewrite matched_pairs_take by done.
  rewrite fmap_take, candidates_fst.
  eapply sublist_NoDup; [|apply sublist_take].
  apply NoDup_filter. unfold sorted_reverse. by rewrite sorted_perm.
Qed.

(** The images that a completed run has taken out of the image directory
    are the selected ones. *)
Lemma moved_out_selected ord images_dir labels_dir output_images_dir
    output_labels_dir prefixes cap fs fs' (idir ldir : directory) prefix img :
  (forall l, ord l ≡ₚ l) ->
  prefix ∈ prefixes ->
  NoDup [images_dir; labels_dir; output_images_dir; output_labels_dir] ->
  fs !! images_dir = Some idir ->
  let g := groups_of prefixes (ord (map_to_list idir).*1) in
  let s := label_set_of (ord (map_to_list ldir).*1) in
  let moves := all_moves images_dir labels_dir output_images_dir
                 output_labels_dir g s prefixes cap in
  (forall src dst, (src, dst) ∈ moves ->
     is_Some (file_at fs src) /\ file_at fs' src = None /\
     file_at fs' dst = file_at fs src) ->
  (forall q, q ∉ moves.*1 -> q ∉ moves.*2 -> file_at fs' q = file_at fs q) ->
  img ∈ g !!! prefix ->
  (img ∈ (matched_pairs g s cap prefix).*1 ->
   file_at fs' (os_path_join images_dir img) = None) /\
  (img ∉ (matched_pairs g s cap prefix).*1 ->
   is_Some (file_at fs (os_path_join images_dir img)) /\
   file_at fs' (os_path_join images_dir img)
     = file_at fs (os_path_join images_dir img)).
Proof.
  intros Hord Hprefix (Hil & Hio & Hio' & Hlo & Hlo' & Hoo)%NoDup_four Hi g s
    moves Hmoved Hrest Hin.
  apply group_elem in Hin as [Hname Hgroup]. split.
  - intros ([img' lbl] & Himg & Hsel)%list_elem_of_fmap. simpl in Himg.
    subst img'.
    apply (Hmoved _ (os_path_join output_images_dir img)).
    apply all_moves_elem. exists img, lbl. split; [|by left].
    apply all_selected_elem. eauto.
  - intros Hnot. split.
    { rewrite file_at_join, Hi. simpl. apply elem_of_dom, listing_elem.
      by rewrite <-(Hord (map_to_list idir).*1). }
    apply Hrest.
    + intros ([src dst] & Hsrc & (img' & lbl & Hsel & [Heq|Heq])%all_moves_elem)%
        list_elem_of_fmap; simpl in Hsrc; subst src;
        injection Heq as Hs _; apply join_inj in Hs as [? ?]; [|done].
      subst img'. apply all_selected_elem in Hsel as (prefix' & _ & Hsel).
      pose proof Hsel as (_ & Hgroup' & _)%matched_pairs_names.
      apply in_group_spec in Hgroup as [_ Hfind].
      apply in_group_spec in Hgroup' as [_ Hfind'].
      assert (prefix' = prefix) as -> by congruence.
      apply Hnot. by apply (list_elem_of_fmap_2 fst) in Hsel.
    + intros ([src dst] & Hdst & (img' & lbl & _ & [Heq|Heq])%all_moves_elem)%
        list_elem_of_fmap; simpl in Hdst; subst dst;
        injection Heq as _ Hd; apply join_inj in Hd as [? _]; done.
Qed.

(** C5, amended: for a cap of at least 1 and every prefix of the list, a
    run of the splitter that completes on four distinct directories has
    taken at most [cap] images of the prefix out of the image directory,
    exactly [cap] of them when at least [cap] images of the prefix have a
    label; every image taken out has a label, is in the output image
    directory, and its label file has left the label directory for the
    output label directory; every other image of the prefix is where it
    was. *)
Theorem move_matched_pairs_cap ord images_dir labels_dir output_images_dir
    output_labels_dir prefixes cap fs fs' prefix :
  (forall l, ord l ≡ₚ l) ->
  1 <= cap ->
  prefix ∈ prefixes ->
  NoDup [images_dir; labels_dir; output_images_dir; output_labels_dir] ->
  move_matched_pairs ord images_dir labels_dir output_images_dir
                     output_labels_dir prefixes cap fs = Some (tt, fs') ->
  exists image_groups label_set,
    collect_image_files_by_prefix ord images_dir prefixes fs
      = Some (image_groups, fs) /\
    collect_label_set ord labels_dir fs = Some (label_set, fs) /\
    let moved := moved_out fs' images_dir (image_groups !!! prefix) in
    Z.of_nat (length moved) <= cap /\
    (cap <= Z.of_nat (length (List.filter (has_label label_set)
                                          (image_groups !!! prefix))) ->
     Z.of_nat (length moved) = cap) /\
    (forall image_fname, image_fname ∈ moved ->
       let label_fname := strip_image_id image_fname +:+ ".nii.gz" in
       has_label label_set image_fname = true /\
       is_Some (file_at fs (os_path_join images_dir image_fname)) /\
       is_Some (file_at fs (os_path_join labels_dir label_fname)) /\
       file_at fs' (os_path_join output_images_dir image_fname)
         = file_at fs (os_path_join images_dir image_fname) /\
       file_at fs' (os_path_join output_labels_dir label_fname)
         = file_at fs (os_path_join labels_dir label_fname) /\
       file_at fs' (os_path_join labels_dir label_fname) = None) /\
    (forall image_fname,
       image_fname ∈ image_groups !!! prefix -> image_fname ∉ moved ->
       is_Some (file_at fs (os_path_join images_dir image_fname)) /\
       file_at fs' (os_path_join images_dir image_fname)
         = file_at fs (os_path_join images_dir image_fname)).
Proof.
  intros Hord Hcap Hprefix Hdirs Hrun.
  apply move_matched_pairs_run in Hrun
    as (idir & ldir & Hi & Hl & _ & Hmoved & Hrest); [|done].
  set (g := groups_of prefixes (ord (map_to_list idir).*1)) in *.
  set (s := label_set_of (ord (map_to_list ldir).*1)) in *.
  exists g, s. split; [apply collect_image_files_by_prefix_Some; eauto|].
  split; [apply collect_label_set_Some; eauto|].
  pose proof (fun img => moved_out_selected ord _ _ _ _ _ cap fs fs' idir ldir
                prefix img Hord Hprefix Hdirs Hi Hmoved Hrest) as Hsel.
  fold g s in Hsel.
  assert (forall img, img ∈ moved_out fs' images_dir (g !!! prefix) <->
                      img ∈ (matched_pairs g s cap prefix).*1) as Hiff.
  { intros img. unfold moved_out. rewrite filter_elem_of, bool_decide_eq_true.
    split.
    - intros [Hin Hgone]. destruct (Hsel img Hin) as [_ Hkept].
      destruct (decide (img ∈ (matched_pairs g s cap prefix).*1)) as [|Hnot];
        [done|].
      destruct (Hkept Hnot) as [[f Hf] Heq]. congruence.
    - intros Hin.
      assert (img ∈ g !!! prefix) as Hgroup.
      { apply list_elem_of_fmap in Hin as ([img' lbl] & -> & Hin).
        apply matched_pairs_names in Hin as (? & ? & _). by apply group_elem. }
      split; [done|]. by apply (Hsel img Hgroup). }
  assert (length (moved_out fs' images_dir (g !!! prefix))
          = length (matched_pairs g s cap prefix)) as Hlen.
  { rewrite <-(length_fmap fst (matched_pairs g s cap prefix)).
    apply Permutation_length, NoDup_Permutation; [| |done].
    - apply NoDup_filter. by apply group_NoDup.
    - apply matched_pairs_NoDup; [done|]. by apply group_NoDup. }
  destruct (matched_pairs_length g s cap prefix Hcap) as [Hle Heq].
  simpl. rewrite Hlen. split; [done|]. split; [done|]. split.
  - intros img ([img' lbl] & -> & Hin)%Hiff%list_elem_of_fmap. simpl.
    pose proof Hin as (_ & _ & Hlabel & ->)%matched_pairs_names.
    assert ((img', strip_image_id img' +:+ ".nii.gz")
            ∈ all_selected g s prefixes cap) as Hall
      by (apply all_selected_elem; eauto).
    destruct (Hmoved (os_path_join images_dir img')
                     (os_path_join output_images_dir img')) as (? & ? & ?).
    { apply all_moves_elem. eexists _, _. split; [exact Hall|]. by left. }
    destruct (Hmoved (os_path_join labels_dir (strip_image_id img' +:+ ".nii.gz"))
                (os_path_join output_labels_dir
                              (strip_image_id img' +:+ ".nii.gz")))
      as (? & ? & ?).
    { apply all_moves_elem. eexists _, _. split; [exact Hall|]. by right. }
    split_and!; assumption.
  - intros img Hin Hnot. apply (Hsel img Hin). by rewrite <-Hiff.
Qed.

Lemma split_fs_run cap :
  succeeds (move_matched_pairs (fun l => l) ["tr"; "images"] ["tr"; "labels"]
              ["val"; "images"] ["val"; "labels"] prefixes cap split_fs) = true ->
  move_matched_pairs (fun l => l) ["tr"; "images"] ["tr"; "labels"]
    ["val"; "images"] ["val"; "labels"] prefixes cap split_fs
  = Some (tt, final_fs (move_matched_pairs (fun l => l) ["tr"; "images"]
                          ["tr"; "labels"] ["val"; "images"] ["val"; "labels"]
                          prefixes cap split_fs)).
Proof. apply run_final. Qed.

Lemma move_matched_pairs_cap_witness :
  let ord := fun l : list string => l in
  let images_dir := ["tr"; "images"] in
  let labels_dir := ["tr"; "labels"] in
  let output_images_dir := ["val"; "images"] in
  let output_labels_dir := ["val"; "labels"] in
  let fs' := final_fs (move_matched_pairs ord images_dir labels_dir
                         output_images_dir output_labels_dir prefixes 2
                         split_fs) in
  (forall l, ord l ≡ₚ l) /\
  1 <= 2 /\
  "ToothFairy3F" ∈ prefixes /\
  NoDup [images_dir; labels_dir; output_images_dir; output_labels_dir] /\
  move_matched_pairs ord images_dir labels_dir output_images_dir
                     output_labels_dir prefixes 2 split_fs = Some (tt, fs') /\
  exists image_groups label_set,
    collect_image_files_by_prefix ord images_dir prefixes split_fs
      = Some (image_groups, split_fs) /\
    collect_label_set ord labels_dir split_fs = Some (label_set, split_fs) /\
    let moved := moved_out fs' images_dir (image_groups !!! "ToothFairy3F") in
    Z.of_nat (length moved) <= 2 /\
    (2 <= Z.of_nat (length (List.filter (has_label label_set)
                                        (image_groups !!! "ToothFairy3F"))) ->
     Z.of_nat (length moved) = 2) /\
    (forall image_fname, image_fname ∈ moved ->
       let label_fname := strip_image_id image_fname +:+ ".nii.gz" in
       has_label label_set image_fname = true /\
       is_Some (file_at split_fs (os_path_join images_dir image_fname)) /\
       is_Some (file_at split_fs (os_path_join labels_dir label_fname)) /\
       file_at fs' (os_path_join output_images_dir image_fname)
         = file_at split_fs (os_path_join images_dir image_fname) /\
       file_at fs' (os_path_join output_labels_dir label_fname)
         = file_at split_fs (os_path_join labels_dir label_fname) /\
       file_at fs' (os_path_join labels_dir label_fname) = None) /\
    (forall image_fname,
       image_fname ∈ image_groups !!! "ToothFairy3F" -> image_fname ∉ moved ->
       is_Some (file_at split_fs (os_path_join images_dir image_fname)) /\
       file_at fs' (os_path_join images_dir image_fname)
         = file_at split_fs (os_path_join images_dir image_fname)).
Proof.
  intros ord images_dir labels_dir output_images_dir output_labels_dir fs'.
  assert (forall l, ord l ≡ₚ l) as Hord by done.
  assert (1 <= 2) as Hcap by lia.
  assert ("ToothFairy3F" ∈ prefixes) as Hprefix by left.
  assert (NoDup [images_dir; labels_dir; output_images_dir; output_labels_dir])
    as Hnd.
  { apply (@bool_decide_unpack _ (NoDup_dec _)). vm_compute. exact I. }
  assert (move_matched_pairs ord images_dir labels_dir
            output_images_dir output_labels_dir prefixes 2 split_fs
          = Some (tt, fs')) as Hrun.
  { apply split_fs_run. vm_compute. reflexivity. }
  split; [exact Hord|]. split; [exact Hcap|]. split; [exact Hprefix|].
  split; [exact Hnd|]. split; [exact Hrun|].
  exact (move_matched_pairs_cap ord _ _ _ _ _ _ _ _ _ Hord Hcap Hprefix Hnd Hrun).
Defined.

(** C5, as stated, does not hold: with the cap 0 the splitter still takes
    the image of the second prefix, with its label, out of the training
    directories. *)
Lemma move_matched_pairs_cap_zero :
  let r := move_matched_pairs (fun l => l) ["tr"; "images"] ["tr"; "labels"]
             ["val"; "images"] ["val"; "labels"] prefixes 0 split_fs in
  let image_groups :=
    (default (∅, ∅) (collect_image_files_by_prefix (fun l => l) ["tr"; "images"]
                       prefixes split_fs)).1 in
  r = Some (tt, final_fs r) /\
  collect_image_files_by_prefix (fun l => l) ["tr"; "images"] prefixes split_fs
    = Some (image_groups, split_fs) /\
  moved_out (final_fs r) ["tr"; "images"] (image_groups !!! "ToothFairy3P")
    = ["ToothFairy3P_001_0000.nii.gz"] /\
  ~ (Z.of_nat (length (moved_out (final_fs r) ["tr"; "images"]
                                 (image_groups !!! "ToothFairy3P"))) <= 0) /\
  file_at (final_fs r) ["val"; "images"; "ToothFairy3P_001_0000.nii.gz"]
    = Some (OtherFile "P1") /\
  file_at (final_fs r) ["val"; "labels"; "ToothFairy3P_001.nii.gz"]
    = Some (OtherFile "label P1") /\
  file_at (final_fs r) ["tr"; "images"; "ToothFairy3P_001_0000.nii.gz"] = None /\
  file_at (final_fs r) ["tr"; "labels"; "ToothFairy3P_001.nii.gz"] = None.
Proof.
  intros r image_groups.
  assert (moved_out (final_fs r) ["tr"; "images"]
                    (image_groups !!! "ToothFairy3P")
          = ["ToothFairy3P_001_0000.nii.gz"]) as Hmoved
    by (vm_compute; reflexivity).
  split; [apply split_fs_run; vm_compute; reflexivity|].
  split.
  { pose proof (run_result (collect_image_files_by_prefix (fun l => l)
                  ["tr"; "images"] prefixes split_fs) ∅) as Hc.
    pose proof (Hc ltac:(vm_compute; reflexivity)) as Hc'.
    pose proof Hc' as (dir & _ & _ & Hfs)%collect_image_files_by_prefix_Some.
    rewrite Hfs in Hc'. exact Hc'. }
  split; [exact Hmoved|]. split; [rewrite Hmoved; simpl; lia|].
  split_and!; vm_compute; reflexivity.
Qed.

(** ** Relabeling a directory *)





(** ** The pipeline and the directories *)

Lemma remap_all_labels_unchanged_dir ord label_dir output_dir id_mapping fs fs' :
  remap_all_labels ord label_dir output_dir id_mapping fs = Some (tt, fs') ->
  unchanged_except (fun q => os_path_dirname q = output_dir) fs fs'.
Proof.
  unfold remap_all_labels. intros H.
  apply bind_Some in H as ([] & fs1 & Hmk & H).
  apply bind_Some in H as (names & fs2 & (dir & _ & _ & ->)%os_listdir_Some & H).
  eapply unchanged_except_trans; [by eapply makedirs_unchanged|].
  eapply for_each_unchanged; [|exact H].
  intros fname fsa fsb _. simpl.
  destruct (Str.endswith fname ".nii.gz").
  - intros (? & ? & _ & _ & Hfs)%remap_labels_in_nii_run q Hq.
    rewrite Hfs, decide_False; [done|]. intros ->. apply Hq.
    apply dirname_join.
  - intros [_ ->]%ret_Some. apply unchanged_except_refl.
Qed.

Lemma move_matched_pairs_unchanged_dir ord images_dir labels_dir
    output_images_dir output_labels_dir prefixes cap fs fs' :
  move_matched_pairs ord images_dir labels_dir output_images_dir
                     output_labels_dir prefixes cap fs = Some (tt, fs') ->
  unchanged_except
    (fun q => os_path_dirname q ∈ [images_dir; labels_dir; output_images_dir;
                                   output_labels_dir]) fs fs'.
Proof.
  rewrite move_matched_pairs_unfold. intros H.
  apply bind_Some in H as ([] & fs1 & Hmk1 & H).
  apply bind_Some in H as ([] & fs2 & Hmk2 & H).
  apply bind_Some in H as (sel & fs3 & Hsel & H).
  apply selected_pairs_Some in Hsel as (idir & ldir & _ & _ & -> & ->).
  eapply unchanged_except_trans; [by eapply makedirs_unchanged|].
  eapply unchanged_except_trans; [by eapply makedirs_unchanged|].
  eapply for_each_unchanged; [|exact H].
  intros matched fsa fsb _ Hmv.
  unfold move_pairs in Hmv. eapply for_each_unchanged; [|exact Hmv].
  intros [img lbl] fsc fsd _ Hpair.
  apply bind_Some in Hpair as ([] & fse & Hm1%move_unchanged & Hm2%move_unchanged).
  eapply unchanged_except_trans.
  - eapply unchanged_except_weaken; [|exact Hm1].
    intros q [-> | ->]; rewrite dirname_join; set_solver.
  - eapply unchanged_except_weaken; [|exact Hm2].
    intros q [-> | ->]; rewrite dirname_join; set_solver.
Qed.

(** The directories that [main] writes into. *)
(** A completed run writes inside the output root only: a file in a
    directory that is neither the output root nor one of its four
    subdirectories is as it was. *)
Theorem main_writes_output_only ord input_root output_root fs fs' q :
  main ord input_root output_root fs = Some (tt, fs') ->
  os_path_dirname q ∉
    [output_root; os_path_join output_root "imagesTr";
     os_path_join output_root "labelsTr";
     os_path_join output_root "imagesVal";
     os_path_join output_root "labelsVal"] ->
  file_at fs' q = file_at fs q.
Proof.
  intros (fs0 & id_mapping & fs1 & fs2 & fs3 & fs4 & fs5 & H0 & H1 & H2 & H3
          & H4 & H5 & H6)%main_run.
  revert q.
  change (unchanged_except
            (fun q => os_path_dirname q ∈
                        [output_root; os_path_join output_root "imagesTr";
                         os_path_join output_root "labelsTr";
                         os_path_join output_root "imagesVal";
                         os_path_join output_root "labelsVal"]) fs fs').
  eapply unchanged_except_trans; [by eapply makedirs_unchanged|].
  eapply unchanged_except_trans.
  { apply remap_label_ids_from_json_run in H1 as (? & ? & ? & _ & _ & _ & _ & Hfs).
    intros q Hq. rewrite Hfs, decide_False; [done|]. intros ->. apply Hq.
    rewrite dirname_join. set_solver. }
  eapply unchanged_except_trans; [by eapply makedirs_unchanged|].
  eapply unchanged_except_trans.
  { eapply unchanged_except_weaken; [|by eapply remap_all_labels_unchanged_dir].
    intros q ->. set_solver. }
  eapply unchanged_except_trans.
  { eapply unchanged_except_weaken; [|by eapply copytree_unchanged].
    intros q ->. set_solver. }
  eapply unchanged_except_trans.
  { eapply unchanged_except_weaken; [|by eapply move_matched_pairs_unchanged_dir].
    intros q Hq. set_solver. }
  apply update_num_training_run in H6 as (? & ? & ? & _ & _ & _ & Hfs).
  intros q Hq. rewrite Hfs, decide_False; [done|]. intros ->. apply Hq.
  rewrite dirname_join. set_solver.
Qed.

(** ** Where the files end up *)

Lemma split_image_fate ord images_dir labels_dir output_images_dir
    output_labels_dir prefixes cap fs fs' name f :
  NoDup [images_dir; labels_dir; output_images_dir; output_labels_dir] ->
  move_matched_pairs ord images_dir labels_dir output_images_dir
                     output_labels_dir prefixes cap fs = Some (tt, fs') ->
  file_at fs (os_path_join images_dir name) = Some f ->
  file_at fs' (os_path_join images_dir name) = Some f \/
  (file_at fs' (os_path_join output_images_dir name) = Some f /\
   file_at fs' (os_path_join images_dir name) = None).
Proof.
  intros Hdirs Hrun Hf.
  pose proof Hdirs as (Hil & Hio & Hio' & Hlo & Hlo' & Hoo)%NoDup_four.
  apply move_matched_pairs_run in Hrun
    as (idir & ldir & _ & _ & _ & Hmoved & Hrest); [|done].
  set (moves := all_moves _ _ _ _ _ _ _ _) in *.
  destruct (decide (os_path_join images_dir name ∈ moves.*1)) as [Hin|Hout].
  - right. apply list_elem_of_fmap in Hin as ([src dst] & Hsrc & Hin).
    simpl in Hsrc. subst src.
    destruct (Hmoved _ _ Hin) as (_ & Hgone & Hdst). split; [|done].
    apply all_moves_elem in Hin as (img & lbl & _ & [Heq|Heq]);
      injection Heq as Hs ->; apply join_inj in Hs as [? ?]; [|done].
    subst img. by rewrite Hdst.
  - left. rewrite Hrest; [done..|].
    intros ([src dst] & Hdst & (img & lbl & _ & [Heq|Heq])%all_moves_elem)%
      list_elem_of_fmap; simpl in Hdst; subst dst;
      injection Heq as _ Hd; apply join_inj in Hd as [? _]; done.
Qed.

Lemma split_label_fate ord images_dir labels_dir output_images_dir
    output_labels_dir prefixes cap fs fs' name f :
  NoDup [images_dir; labels_dir; output_images_dir; output_labels_dir] ->
  move_matched_pairs ord images_dir labels_dir output_images_dir
                     output_labels_dir prefixes cap fs = Some (tt, fs') ->
  file_at fs (os_path_join labels_dir name) = Some f ->
  file_at fs' (os_path_join labels_dir name) = Some f \/
  (file_at fs' (os_path_join output_labels_dir name) = Some f /\
   file_at fs' (os_path_join labels_dir name) = None).
Proof.
  intros Hdirs Hrun Hf.
  pose proof Hdirs as (Hil & Hio & Hio' & Hlo & Hlo' & Hoo)%NoDup_four.
  apply move_matched_pairs_run in Hrun
    as (idir & ldir & _ & _ & _ & Hmoved & Hrest); [|done].
  set (moves := all_moves _ _ _ _ _ _ _ _) in *.
  destruct (decide (os_path_join labels_dir name ∈ moves.*1)) as [Hin|Hout].
  - right. apply list_elem_of_fmap in Hin as ([src dst] & Hsrc & Hin).
    simpl in Hsrc. subst src.
    destruct (Hmoved _ _ Hin) as (_ & Hgone & Hdst). split; [|done].
    apply all_moves_elem in Hin as (img & lbl & _ & [Heq|Heq]);
      injection Heq as Hs ->; apply join_inj in Hs as [? ?]; [done|].
    subst lbl. by rewrite Hdst.
  - left. rewrite Hrest; [done..|].
    intros ([src dst] & Hdst & (img & lbl & _ & [Heq|Heq])%all_moves_elem)%
      list_elem_of_fmap; simpl in Hdst; subst dst;
      injection Heq as _ Hd; apply join_inj in Hd as [? _]; done.
Qed.

(** The splitter loses nothing: after a run that completes on four distinct
    directories, an image of the image directory is still there or is in
    the output image directory and no longer in the first, with the file it
    was, and so is a label file of the label directory. *)
Theorem move_matched_pairs_conserves ord images_dir labels_dir output_images_dir
    output_labels_dir prefixes cap fs fs' :
  NoDup [images_dir; labels_dir; output_images_dir; output_labels_dir] ->
  move_matched_pairs ord images_dir labels_dir output_images_dir
                     output_labels_dir prefixes cap fs = Some (tt, fs') ->
  (forall name f,
     file_at fs (os_path_join images_dir name) = Some f ->
     file_at fs' (os_path_join images_dir name) = Some f \/
     (file_at fs' (os_path_join output_images_dir name) = Some f /\
      file_at fs' (os_path_join images_dir name) = None)) /\
  (forall name f,
     file_at fs (os_path_join labels_dir name) = Some f ->
     file_at fs' (os_path_join labels_dir name) = Some f \/
     (file_at fs' (os_path_join output_labels_dir name) = Some f /\
      file_at fs' (os_path_join labels_dir name) = None)).
Proof.
  intros Hdirs Hrun. split; intros name f Hf.
  - by eapply split_image_fate.
  - by eapply split_label_fate.
Qed.

Lemma output_dirs_NoDup output_root :
  NoDup [os_path_join output_root "imagesTr"; os_path_join output_root "labelsTr";
         os_path_join output_root "imagesVal";
         os_path_join output_root "labelsVal"].
Proof.
  assert (forall a b : string, a <> b ->
            os_path_join output_root a <> os_path_join output_root b) as Hne.
  { intros a b Hab [_ ?]%join_inj. done. }
  repeat (apply NoDup_cons; split;
          [rewrite ?not_elem_of_cons; split_and?;
             try (apply Hne; discriminate); apply not_elem_of_nil|]).
  constructor.
Qed.

Lemma nii_not_descriptor d d' name :
  Str.endswith name ".nii.gz" = true ->
  os_path_join d name <> os_path_join d' "dataset.json".
Proof. intros Hsuf [_ ->]%join_inj. done. Qed.

(** A completed run loses no image: an image file of the input image
    directory, with the suffix [.nii.gz], is afterwards in the training-image
    output directory, or in the validation-image output directory and not
    in the training one, byte for byte. *)
Theorem main_keeps_images ord input_root output_root fs fs' name f :
  main ord input_root output_root fs = Some (tt, fs') ->
  Str.endswith name ".nii.gz" = true ->
  file_at fs (os_path_join (os_path_join input_root "imagesTr") name) = Some f ->
  file_at fs' (os_path_join (os_path_join output_root "imagesTr") name) = Some f \/
  (file_at fs' (os_path_join (os_path_join output_root "imagesVal") name) = Some f /\
   file_at fs' (os_path_join (os_path_join output_root "imagesTr") name) = None).
Proof.
  intros (fs0 & id_mapping & fs1 & fs2 & fs3 & fs4 & fs5 & H0 & H1 & H2 & H3
          & H4 & H5 & H6)%main_run Hsuf Hf.
  assert (file_at fs3 (os_path_join (os_path_join input_root "imagesTr") name)
          = Some f) as Hf3.
  { rewrite (remap_all_labels_unchanged_dir _ _ _ _ _ _ H3).
    2:{ rewrite dirname_join. by intros [_ ?]%join_inj. }
    rewrite (file_at_makedirs _ _ _ _ H2).
    apply remap_label_ids_from_json_run in H1 as (? & ? & ? & _ & _ & _ & _ & ->).
    rewrite decide_False by by apply nii_not_descriptor.
    by rewrite (file_at_makedirs _ _ _ _ H0). }
  assert (file_at fs4 (os_path_join (os_path_join output_root "imagesTr") name)
          = Some f) as Hf4.
  { destruct (decide (os_path_join input_root "imagesTr"
                      = os_path_join output_root "imagesTr")) as [Heq|Hne].
    - unfold shutil_copytree in H4. rewrite file_at_join in Hf3.
      destruct (fs3 !! os_path_join input_root "imagesTr") as [src_dir|]; [|done].
      rewrite decide_True in H4 by done.
      destruct (decide (src_dir = ∅)) as [->|]; [|done].
      simpl in Hf3. by rewrite lookup_empty in Hf3.
    - rewrite (copytree_file_at _ _ _ _ name Hne H4). by rewrite Hf3. }
  apply update_num_training_run in H6 as (? & ? & ? & _ & _ & _ & Hfs').
  rewrite !Hfs'. rewrite !decide_False by by apply nii_not_descriptor.
  by apply (split_image_fate _ _ _ _ _ _ _ _ _ _ _ (output_dirs_NoDup output_root) H5).
Qed.

Lemma dict_set_keys_new {K V} `{EqDecision K} (k : K) (v : V) d :
  Dict.get k d = None -> (Dict.set k v d).*1 = (d.*1 ++ [k])%list.
Proof.
  induction d as [|[k0 v0] d IH]; simpl; [done|].
  destruct (decide (k = k0)) as [->|]; [done|].
  intros ?. rewrite !fmap_cons. simpl. f_equal. by apply IH.
Qed.

Lemma dict_set_NoDup {K V} `{EqDecision K} (k : K) (v : V) d :
  NoDup d.*1 -> NoDup (Dict.set k v d).*1.
Proof.
  intros Hd. destruct (Dict.get k d) as [x|] eqn:Hget.
  - by rewrite dict_set_keys.
  - rewrite dict_set_keys_new by done.
    apply NoDup_app. split; [done|]. split; [|apply NoDup_singleton].
    intros y Hy ->%list_elem_of_singleton. by apply dict_get_None in Hget.
Qed.

Lemma of_items_NoDup {K V} `{EqDecision K} (items : list (K * V)) :
  NoDup (Dict.of_items items).*1.
Proof.
  unfold Dict.of_items.
  assert (forall d, NoDup d.*1 ->
            NoDup (fold_left (fun d kv => Dict.set kv.1 kv.2 d) items d).*1) as H.
  { induction items as [|kv items IH]; intros d Hd; simpl; [done|].
    apply IH. by apply dict_set_NoDup. }
  apply H. constructor.
Qed.







(** ** The two tables of the Remapper *)

Lemma name_pairs_keys (l : list (string * Z)) :
  (map (fun '(new_id, (name, _)) => (name, new_id)) (enumerate l)).*1 = l.*1.
Proof.
  unfold enumerate.
  assert (forall f : nat -> nat,
    (map (fun '(new_id, (name, _)) => (name, new_id))
      (imap (fun i (x : string * Z) => (Z.of_nat (f i), x)) l)).*1 = l.*1) as H.
  { induction l as [|[n o] l IH]; intros f; simpl; [done|].
    f_equal. apply (IH (f ∘ S)). }
  apply (H id).
Qed.

Lemma name_pairs_lookup (l : list (string * Z)) i name old :
  l !! i = Some (name, old) ->
  map (fun '(new_id, (name, _)) => (name, new_id)) (enumerate l) !! i
    = Some (name, Z.of_nat i).
Proof.
  intros Hi. unfold enumerate. rewrite list_lookup_fmap, list_lookup_imap, Hi.
  done.
Qed.

Lemma last_value_elem_NoDup {K V} `{EqDecision K} (k : K) (v : V) items :
  NoDup items.*1 -> (k, v) ∈ items -> Dict.last_value k items = Some v.
Proof.
  intros Hnd Hin. rewrite last_value_NoDup by done.
  by apply dict_get_elem_NoDup.
Qed.

(** The two tables the Remapper returns agree when the label table has no
    repeated name and no repeated original ID: the new ID that the output
    descriptor lists for a label name is the new ID that the ID mapping
    gives to the original ID of that name. *)
Theorem remapped_labels_agree (t : label_table) name old :
  NoDup t.*1 -> NoDup t.*2 -> (name, old) ∈ t ->
  exists new_id,
    Dict.get name (remapped_labels t) = Some new_id /\
    Dict.get old (new_id_map t) = Some new_id.
Proof.
  intros Hnames Hids Hin.
  rewrite <-label_items_perm in Hin.
  apply list_elem_of_lookup in Hin as [i Hi].
  exists (Z.of_nat i). split.
  - unfold remapped_labels. rewrite dict_get_of_items.
    apply last_value_elem_NoDup.
    + rewrite name_pairs_keys. by rewrite label_items_perm.
    + apply list_elem_of_lookup. exists i. by eapply name_pairs_lookup.
  - rewrite new_id_map_get. apply last_value_elem_NoDup.
    + by rewrite id_pairs_keys.
    + apply list_elem_of_lookup. exists i. apply id_pairs_lookup. eauto.
Qed.

(** ** A table that is already dense *)

Lemma seqZ_sorted m (k : nat) : StronglySorted Z.le (seqZ m (Z.of_nat k)).
Proof.
  revert m. induction k as [|k IH]; intros m; [constructor|].
  rewrite seqZ_cons by lia.
  replace (Z.pred (Z.of_nat (S k))) with (Z.of_nat k) by lia.
  constructor; [apply IH|]. apply Forall_seqZ. lia.
Qed.

Lemma label_items_dense (t : label_table) i name old :
  t.*2 ≡ₚ seqZ 0 (Z.of_nat (length t)) ->
  label_items t !! i = Some (name, old) -> old = Z.of_nat i.
Proof.
  intros Hperm Hi.
  assert ((label_items t).*2 = seqZ 0 (Z.of_nat (length t))) as Heq.
  { apply (StronglySorted_unique_strong Z.le).
    - intros x1 x2 _ _ ? ?. lia.
    - eapply StronglySorted_fmap; [|apply label_items_sorted]. done.
    - apply seqZ_sorted.
    - by rewrite label_items_perm. }
  assert ((label_items t).*2 !! i = Some old) as Hold
    by by rewrite list_lookup_fmap, Hi.
  rewrite Heq in Hold. apply lookup_seqZ in Hold as [-> _]. lia.
Qed.

Lemma remapped_labels_rank (t : label_table) i name old :
  NoDup t.*1 -> label_items t !! i = Some (name, old) ->
  Dict.get name (remapped_labels t) = Some (Z.of_nat i).
Proof.
  intros Hnames Hi. unfold remapped_labels. rewrite dict_get_of_items.
  apply last_value_elem_NoDup.
  - rewrite name_pairs_keys. by rewrite label_items_perm.
  - apply list_elem_of_lookup. exists i. by eapply name_pairs_lookup.
Qed.

(** On a label table whose IDs are already 0, ..., N-1, in whatever order
    the names come, the Remapper changes nothing: the ID mapping sends every
    ID to itself, and when no name is repeated the remapped label table
    gives every name the ID it had. *)
Theorem new_id_map_dense_identity (t : label_table) :
  t.*2 ≡ₚ seqZ 0 (Z.of_nat (length t)) ->
  (forall old, old ∈ t.*2 -> Dict.get old (new_id_map t) = Some old) /\
  (NoDup t.*1 ->
   forall name old, (name, old) ∈ t ->
     Dict.get name (remapped_labels t) = Some old).
Proof.
  intros Hperm. split.
  - intros old [new Hnew]%new_id_map_dom. rewrite Hnew.
    apply new_id_map_rank in Hnew as (i & name & -> & Hi).
    by rewrite (label_items_dense _ _ _ _ Hperm Hi).
  - intros Hnames name old Hin. rewrite <-label_items_perm in Hin.
    apply list_elem_of_lookup in Hin as [i Hi].
    rewrite (remapped_labels_rank _ _ _ _ Hnames Hi).
    by rewrite (label_items_dense _ _ _ _ Hperm Hi).
Qed.

Lemma dict_set_new {K V} `{EqDecision K} (k : K) (v : V) d :
  k ∉ d.*1 -> Dict.set k v d = (d ++ [(k, v)])%list.
Proof.
  induction d as [|[k0 v0] d IH]; simpl; [done|].
  rewrite not_elem_of_cons. intros [? ?].
  rewrite decide_False by done. f_equal. by apply IH.
Qed.

Lemma of_items_NoDup_id {K V} `{EqDecision K} (items : list (K * V)) :
  NoDup items.*1 -> Dict.of_items items = items.
Proof.
  unfold Dict.of_items.
  assert (forall d : list (K * V), NoDup ((d ++ items)%list).*1 ->
            fold_left (fun d kv => Dict.set kv.1 kv.2 d) items d
            = (d ++ items)%list) as H.
  { induction items as [|[k v] items IH]; intros d Hd; simpl.
    - by rewrite app_nil_r.
    - rewrite fmap_app, fmap_cons in Hd. simpl in Hd.
      apply NoDup_app in Hd as (Hd & Hdis & [Hk Hitems]%NoDup_cons).
      rewrite dict_set_new.
      2:{ intros Hin. apply (Hdis k Hin). left. }
      rewrite IH; [by rewrite <-app_assoc|].
      rewrite <-app_assoc. simpl. rewrite fmap_app, fmap_cons. simpl.
      apply NoDup_app. split; [done|]. split; [done|]. by apply NoDup_cons. }
  intros Hnd. by apply (H []).
Qed.

Lemma name_pairs_values (l : list (string * Z)) :
  (map (fun '(new_id, (name, _)) => (name, new_id)) (enumerate l)).*2
  = seqZ 0 (Z.of_nat (length l)).
Proof.
  apply list_eq. intros i. unfold enumerate.
  rewrite !list_lookup_fmap, list_lookup_imap.
  destruct (l !! i) as [[name old]|] eqn:Hi; simpl.
  - symmetry. apply lookup_seqZ. apply lookup_lt_Some in Hi. lia.
  - symmetry. apply lookup_seqZ_ge. apply lookup_ge_None in Hi. lia.
Qed.

Lemma remapped_labels_pairs (t : label_table) :
  NoDup t.*1 ->
  remapped_labels t
  = map (fun '(new_id, (name, _)) => (name, new_id)) (enumerate (label_items t)).
Proof.
  intros Hnames. apply of_items_NoDup_id.
  rewrite name_pairs_keys. by rewrite label_items_perm.
Qed.

Lemma remapped_labels_keys (t : label_table) name :
  Dict.get name (remapped_labels t) = None <-> name ∉ t.*1.
Proof.
  unfold remapped_labels.
  by rewrite dict_get_of_items, last_value_None, name_pairs_keys,
    label_items_perm.
Qed.

(** Remapping is idempotent: for a label table without a repeated name,
    with or without repeated IDs, the Remapper run on the label table of
    its own output gives the identity ID mapping and the same label
    table. *)
Theorem remapped_labels_idempotent (t : label_table) :
  NoDup t.*1 ->
  (forall new_id, new_id ∈ (remapped_labels t).*2 ->
     Dict.get new_id (new_id_map (remapped_labels t)) = Some new_id) /\
  same_dict (remapped_labels (remapped_labels t)) (remapped_labels t).
Proof.
  intros Hnames.
  assert (NoDup (remapped_labels t).*1) as Hnd by apply of_items_NoDup.
  assert ((remapped_labels t).*2
          ≡ₚ seqZ 0 (Z.of_nat (length (remapped_labels t)))) as Hdense.
  { rewrite remapped_labels_pairs by done. rewrite name_pairs_values.
    unfold enumerate. by rewrite length_map, length_imap. }
  split.
  - intros new_id [x Hx]%new_id_map_dom. rewrite Hx.
    apply new_id_map_rank in Hx as (i & name & -> & Hi).
    by rewrite (label_items_dense _ _ _ _ Hdense Hi).
  - intros name.
    destruct (Dict.get name (remapped_labels t)) as [new_id|] eqn:Hget.
    + apply dict_get_Some_elem in Hget. rewrite <-label_items_perm in Hget.
      apply list_elem_of_lookup in Hget as [i Hi].
      rewrite (remapped_labels_rank _ _ _ _ Hnd Hi).
      by rewrite (label_items_dense _ _ _ _ Hdense Hi).
    + apply remapped_labels_keys. by apply dict_get_None.
Qed.

(** ** Instances on the sample data *)

Lemma strip_image_id_case_witness :
  is_token "ToothFairy3F" = true /\ is_token "001" = true /\
  contains_char "." "0000" = false /\
  strip_image_id "ToothFairy3F_001_0000.nii.gz" = "ToothFairy3F_001" /\
  strip_image_id "ToothFairy3F_001.nii.gz" = "ToothFairy3F_001".
Proof.
  split; [reflexivity|]. split; [reflexivity|]. split; [reflexivity|].
  exact (strip_image_id_case "ToothFairy3F" "001" "0000" eq_refl eq_refl eq_refl).
Defined.

Lemma image_label_pairing_witness :
  let image_groups : gmap string (list string) :=
    {[ "ToothFairy3F" := ["ToothFairy3F_001_0000.nii.gz";
                          "ToothFairy3F_002_0000.nii.gz"] ]} in
  let lnames := ["ToothFairy3F_001.nii.gz"; "ToothFairy3S_003.nii.gz"] in
  let matched :=
    matched_pairs image_groups (label_set_of lnames) 2 "ToothFairy3F" in
  is_token "ToothFairy3F" = true /\ is_token "001" = true /\
  contains_char "." "0000" = false /\
  1 <= 2 /\
  matched = [("ToothFairy3F_001_0000.nii.gz", "ToothFairy3F_001.nii.gz")] /\
  (forall lbl, ("ToothFairy3F_001_0000.nii.gz", lbl) ∈ matched ->
               lbl = "ToothFairy3F_001.nii.gz") /\
  ("ToothFairy3F_001_0000.nii.gz" ∈ image_groups !!! "ToothFairy3F" ->
   "ToothFairy3F_001.nii.gz" ∈ lnames ->
   Z.of_nat (length (image_groups !!! "ToothFairy3F")) <= 2 ->
   ("ToothFairy3F_001_0000.nii.gz", "ToothFairy3F_001.nii.gz") ∈ matched).
Proof.
  intros image_groups lnames matched.
  assert (1 <= 2) as Hcap by lia.
  split; [reflexivity|]. split; [reflexivity|]. split; [reflexivity|].
  split; [exact Hcap|]. split; [vm_compute; reflexivity|].
  exact (image_label_pairing image_groups lnames 2 "ToothFairy3F"
           "ToothFairy3F" "001" "0000" eq_refl eq_refl eq_refl Hcap).
Defined.

Lemma collect_image_files_by_prefix_partition_witness :
  let ord := fun l : list string => l in
  let r := collect_image_files_by_prefix ord ["in"; "imagesTr"] prefixes
             sample_fs in
  let image_groups := (default (∅, ∅) r).1 in
  let fs' := (default (∅, ∅) r).2 in
  (forall l, ord l ≡ₚ l) /\
  r = Some (image_groups, fs') /\
  fs' = sample_fs /\
  exists dir, sample_fs !! ["in"; "imagesTr"] = Some dir /\
    (forall prefix fname, fname ∈ image_groups !!! prefix ->
       is_Some (dir !! fname) /\ Str.endswith fname ".nii.gz" = true /\
       Str.startswith fname prefix = true /\ prefix ∈ prefixes) /\
    (forall prefix1 prefix2 fname,
       fname ∈ image_groups !!! prefix1 -> fname ∈ image_groups !!! prefix2 ->
       prefix1 = prefix2) /\
    (forall prefix, NoDup (image_groups !!! prefix)) /\
    (forall prefix fname,
       is_Some (dir !! fname) -> Str.endswith fname ".nii.gz" = true ->
       prefix ∈ prefixes -> Str.startswith fname prefix = true ->
       exists prefix', fname ∈ image_groups !!! prefix').
Proof.
  intros ord r image_groups fs'.
  assert (forall l, ord l ≡ₚ l) as Hord by done.
  assert (r = Some (image_groups, fs')) as Hrun
    by (apply run_result; vm_compute; reflexivity).
  split; [exact Hord|]. split; [exact Hrun|].
  exact (collect_image_files_by_prefix_partition ord _ _ _ _ _ Hord Hrun).
Defined.

Lemma matched_pairs_greatest_witness :
  let image_groups : gmap string (list string) :=
    {[ "ToothFairy3F" := ["ToothFairy3F_001_0000.nii.gz";
                          "ToothFairy3F_003_0000.nii.gz";
                          "ToothFairy3F_002_0000.nii.gz"] ]} in
  let label_set : gset string :=
    label_set_of ["ToothFairy3F_001.nii.gz"; "ToothFairy3F_002.nii.gz"] in
  let matched := matched_pairs image_groups label_set 1 "ToothFairy3F" in
  let labelled := List.filter (has_label label_set)
                              (image_groups !!! "ToothFairy3F") in
  1 <= 1 /\
  matched = [("ToothFairy3F_002_0000.nii.gz", "ToothFairy3F_002.nii.gz")] /\
  (forall img, img ∈ matched.*1 -> img ∈ labelled) /\
  (forall img img', img ∈ matched.*1 -> img' ∈ labelled -> img' ∉ matched.*1 ->
                    String.leb img' img = true) /\
  (Z.of_nat (length labelled) <= 1 ->
   forall img', img' ∈ labelled -> img' ∈ matched.*1).
Proof.
  intros image_groups label_set matched labelled.
  assert (1 <= 1) as Hcap by lia.
  split; [exact Hcap|]. split; [vm_compute; reflexivity|].
  exact (matched_pairs_greatest image_groups label_set 1 "ToothFairy3F" Hcap).
Defined.

Lemma sample_dirs_NoDup :
  NoDup [["in"; "imagesTr"]; ["in"; "labelsTr"]; ["out"; "imagesVal"];
         ["out"; "labelsVal"]].
Proof. apply (@bool_decide_unpack _ (NoDup_dec _)). vm_compute. exact I. Qed.

Lemma split_sample_run_17 :
  move_matched_pairs (fun l => l) ["in"; "imagesTr"] ["in"; "labelsTr"]
    ["out"; "imagesVal"] ["out"; "labelsVal"] prefixes 17 sample_fs
  = Some (tt, final_fs (move_matched_pairs (fun l => l) ["in"; "imagesTr"]
                          ["in"; "labelsTr"] ["out"; "imagesVal"]
                          ["out"; "labelsVal"] prefixes 17 sample_fs)).
Proof. apply run_final. vm_compute. reflexivity. Qed.

Lemma move_matched_pairs_no_repeat_witness :
  let ord := fun l : list string => l in
  let images_dir := ["in"; "imagesTr"] in
  let labels_dir := ["in"; "labelsTr"] in
  let output_images_dir := ["out"; "imagesVal"] in
  let output_labels_dir := ["out"; "labelsVal"] in
  let fs' := final_fs (move_matched_pairs ord images_dir labels_dir
                         output_images_dir output_labels_dir prefixes 17
                         sample_fs) in
  NoDup [images_dir; labels_dir; output_images_dir; output_labels_dir] /\
  move_matched_pairs ord images_dir labels_dir output_images_dir
    output_labels_dir prefixes 17 sample_fs = Some (tt, fs') /\
  exists image_groups label_set,
    collect_image_files_by_prefix ord images_dir prefixes sample_fs
      = Some (image_groups, sample_fs) /\
    collect_label_set ord labels_dir sample_fs = Some (label_set, sample_fs) /\
    NoDup (all_selected image_groups label_set prefixes 17).*1 /\
    NoDup (all_selected image_groups label_set prefixes 17).*2.
Proof.
  intros ord images_dir labels_dir output_images_dir output_labels_dir fs'.
  split; [exact sample_dirs_NoDup|]. split; [exact split_sample_run_17|].
  exact (move_matched_pairs_no_repeat ord _ _ _ _ _ _ _ _ sample_dirs_NoDup
           split_sample_run_17).
Defined.

Lemma move_matched_pairs_rest_witness :
  let ord := fun l : list string => l in
  let images_dir := ["in"; "imagesTr"] in
  let labels_dir := ["in"; "labelsTr"] in
  let output_images_dir := ["out"; "imagesVal"] in
  let output_labels_dir := ["out"; "labelsVal"] in
  let fs' := final_fs (move_matched_pairs ord images_dir labels_dir
                         output_images_dir output_labels_dir prefixes 17
                         sample_fs) in
  NoDup [images_dir; labels_dir; output_images_dir; output_labels_dir] /\
  move_matched_pairs ord images_dir labels_dir output_images_dir
    output_labels_dir prefixes 17 sample_fs = Some (tt, fs') /\
  exists image_groups label_set,
    collect_image_files_by_prefix ord images_dir prefixes sample_fs
      = Some (image_groups, sample_fs) /\
    collect_label_set ord labels_dir sample_fs = Some (label_set, sample_fs) /\
    forall q,
      (forall img lbl,
          (img, lbl) ∈ all_selected image_groups label_set prefixes 17 ->
          q <> os_path_join images_dir img /\
          q <> os_path_join labels_dir lbl /\
          q <> os_path_join output_images_dir img /\
          q <> os_path_join output_labels_dir lbl) ->
      file_at fs' q = file_at sample_fs q.
Proof.
  intros ord images_dir labels_dir output_images_dir output_labels_dir fs'.
  split; [exact sample_dirs_NoDup|]. split; [exact split_sample_run_17|].
  exact (move_matched_pairs_rest ord _ _ _ _ _ _ _ _ sample_dirs_NoDup
           split_sample_run_17).
Defined.

Lemma move_matched_pairs_conserves_witness :
  let ord := fun l : list string => l in
  let images_dir := ["in"; "imagesTr"] in
  let labels_dir := ["in"; "labelsTr"] in
  let output_images_dir := ["out"; "imagesVal"] in
  let output_labels_dir := ["out"; "labelsVal"] in
  let fs' := final_fs (move_matched_pairs ord images_dir labels_dir
                         output_images_dir output_labels_dir prefixes 17
                         sample_fs) in
  NoDup [images_dir; labels_dir; output_images_dir; output_labels_dir] /\
  move_matched_pairs ord images_dir labels_dir output_images_dir
    output_labels_dir prefixes 17 sample_fs = Some (tt, fs') /\
  (forall name f,
     file_at sample_fs (os_path_join images_dir name) = Some f ->
     file_at fs' (os_path_join images_dir name) = Some f \/
     (file_at fs' (os_path_join output_images_dir name) = Some f /\
      file_at fs' (os_path_join images_dir name) = None)) /\
  (forall name f,
     file_at sample_fs (os_path_join labels_dir name) = Some f ->
     file_at fs' (os_path_join labels_dir name) = Some f \/
     (file_at fs' (os_path_join output_labels_dir name) = Some f /\
      file_at fs' (os_path_join labels_dir name) = None)).
Proof.
  intros ord images_dir labels_dir output_images_dir output_labels_dir fs'.
  split; [exact sample_dirs_NoDup|]. split; [exact split_sample_run_17|].
  exact (move_matched_pairs_conserves ord _ _ _ _ _ _ _ _ sample_dirs_NoDup
           split_sample_run_17).
Defined.



Lemma main_writes_output_only_witness :
  let fs' := final_fs (main (fun l => l) ["in"] ["out"] sample_fs) in
  let q := ["in"; "labelsTr"; "ToothFairy3F_001.nii.gz"] in
  main (fun l => l) ["in"] ["out"] sample_fs = Some (tt, fs') /\
  (os_path_dirname q ∉
    [["out"]; os_path_join ["out"] "imagesTr"; os_path_join ["out"] "labelsTr";
     os_path_join ["out"] "imagesVal"; os_path_join ["out"] "labelsVal"]) /\
  file_at fs' q = file_at sample_fs q.
Proof.
  intros fs' q.
  assert (os_path_dirname q ∉
    [["out"]; os_path_join ["out"] "imagesTr"; os_path_join ["out"] "labelsTr";
     os_path_join ["out"] "imagesVal"; os_path_join ["out"] "labelsVal"]) as Hq.
  { change (["in"; "labelsTr"] ∉
      [["out"]; ["out"; "imagesTr"]; ["out"; "labelsTr"]; ["out"; "imagesVal"];
       ["out"; "labelsVal"]]).
    rewrite !not_elem_of_cons. split_and!; try discriminate.
    apply not_elem_of_nil. }
  split; [exact main_sample_run|]. split; [exact Hq|].
  exact (main_writes_output_only _ _ _ _ _ q main_sample_run Hq).
Defined.

Lemma main_keeps_images_witness :
  let fs' := final_fs (main (fun l => l) ["in"] ["out"] sample_fs) in
  let name := "ToothFairy3F_001_0000.nii.gz" in
  let f := OtherFile "image 1" in
  main (fun l => l) ["in"] ["out"] sample_fs = Some (tt, fs') /\
  Str.endswith name ".nii.gz" = true /\
  file_at sample_fs (os_path_join (os_path_join ["in"] "imagesTr") name)
    = Some f /\
  (file_at fs' (os_path_join (os_path_join ["out"] "imagesTr") name) = Some f \/
   (file_at fs' (os_path_join (os_path_join ["out"] "imagesVal") name) = Some f /\
    file_at fs' (os_path_join (os_path_join ["out"] "imagesTr") name) = None)).
Proof.
  intros fs' name f.
  assert (file_at sample_fs (os_path_join (os_path_join ["in"] "imagesTr") name)
          = Some f) as Hf by (vm_compute; reflexivity).
  split; [exact main_sample_run|]. split; [reflexivity|]. split; [exact Hf|].
  exact (main_keeps_images _ _ _ _ _ name f main_sample_run eq_refl Hf).
Defined.


Lemma remapped_labels_agree_witness :
  let t : label_table := [("background", 0); ("Tooth", 5); ("Bone", 2)] in
  NoDup t.*1 /\ NoDup t.*2 /\ ("Tooth", 5) ∈ t /\
  exists new_id,
    Dict.get "Tooth" (remapped_labels t) = Some new_id /\
    Dict.get 5 (new_id_map t) = Some new_id.
Proof.
  intros t.
  assert (NoDup t.*1) as Hnames
    by (apply (@bool_decide_unpack _ (NoDup_dec _)); vm_compute; exact I).
  assert (NoDup t.*2) as Hids
    by (apply (@bool_decide_unpack _ (NoDup_dec _)); vm_compute; exact I).
  assert (("Tooth", 5) ∈ t) as Hin by (right; left).
  split; [exact Hnames|]. split; [exact Hids|]. split; [exact Hin|].
  exact (remapped_labels_agree t "Tooth" 5 Hnames Hids Hin).
Defined.

Lemma new_id_map_dense_identity_witness :
  let t : label_table := [("Tooth", 2); ("background", 0); ("Bone", 1)] in
  t.*2 ≡ₚ seqZ 0 (Z.of_nat (length t)) /\
  (forall old, old ∈ t.*2 -> Dict.get old (new_id_map t) = Some old) /\
  (NoDup t.*1 ->
   forall name old, (name, old) ∈ t ->
     Dict.get name (remapped_labels t) = Some old).
Proof.
  intros t.
  assert (t.*2 ≡ₚ seqZ 0 (Z.of_nat (length t))) as Hperm.
  { change ([2; 0; 1] ≡ₚ [0; 1; 2]).
    etrans; [apply Permutation_swap|]. apply Permutation_skip.
    apply Permutation_swap. }
  split; [exact Hperm|].
  exact (new_id_map_dense_identity t Hperm).
Defined.

Lemma remapped_labels_idempotent_witness :
  let t := scenario_table in
  NoDup t.*1 /\
  (forall new_id, new_id ∈ (remapped_labels t).*2 ->
     Dict.get new_id (new_id_map (remapped_labels t)) = Some new_id) /\
  same_dict (remapped_labels (remapped_labels t)) (remapped_labels t).
Proof.
  intros t.
  assert (NoDup t.*1) as Hnames
    by (apply (@bool_decide_unpack _ (NoDup_dec _)); vm_compute; exact I).
  split; [exact Hnames|].
  exact (remapped_labels_idempotent t Hnames).
Defined.
